(** * Order-flow conversion (freqtrade/data/converter/orderflow.py)

    A shallow embedding of the order-flow converter: the volume-profile
    builder, the diagonal imbalance detector, the stacked-imbalance scan and
    the routine that populates a candle table from public trades, with its
    insertion-ordered cache.

    Conventions of the embedding.
    - A pandas [float64] value is a rational ([Q]) kept in lowest terms;
      "not a number" is [None] of an [option].  Sums, differences and the
      binning of prices are computed exactly; the quotient of the imbalance
      detector is rounded to binary64 and carries the IEEE special values,
      see [round64] and [fval].
    - An [int64] column is a [Z]; the counts it holds never come near 2^53,
      so reading one as a float is exact.
    - A float argument (a price, an amount, a threshold) is a rational that
      is a binary64 value.
    - A DataFrame is the list of its rows in positional order; an index that
      carries information (the price of a bin) is kept next to the row.
    - An [OrderedDict] is an association list in insertion order. *)

From Stdlib Require Import String Ascii.
From Stdlib Require Import List ZArith QArith Qround Qreduction Qpower Bool Lia Lqa Sorted.
Import ListNotations.

Local Open Scope Z_scope.

(** ** Column helpers *)

Module Series.

(** Element-wise binary operation on two aligned columns. *)
Fixpoint map2 {A B C : Type} (f : A -> B -> C) (xs : list A) (ys : list B) : list C :=
  match xs, ys with
  | x :: xs', y :: ys' => f x y :: map2 f xs' ys'
  | _, _ => []
  end.

(** [Series.shift(-1)]: every value moves one position up, the last
    position is filled with NaN. *)
Definition shift_up {A : Type} (xs : list A) : list (option A) :=
  match xs with
  | [] => []
  | _ :: t => map Some t ++ [None]
  end.

(** [Series.shift()]: every value moves one position down, the first
    position is filled with NaN. *)
Definition shift_down {A : Type} (xs : list A) : list (option A) :=
  firstn (length xs) (None :: map Some xs).

(** [Series.cumsum()]. *)
Fixpoint cumsum_from (acc : Z) (xs : list Z) : list Z :=
  match xs with
  | [] => []
  | x :: t => (acc + x) :: cumsum_from (acc + x) t
  end.

Definition cumsum (xs : list Z) : list Z := cumsum_from 0 xs.

(** [groupby(keys).cumcount()]: for every position, how many earlier
    positions carry the same key. *)
Fixpoint cumcount_from (seen keys : list Z) : list Z :=
  match keys with
  | [] => []
  | k :: t =>
      Z.of_nat (count_occ Z.eq_dec seen k) :: cumcount_from (k :: seen) t
  end.

Definition cumcount (keys : list Z) : list Z := cumcount_from [] keys.

(** Positions of the [true] entries of a boolean mask: [index[mask]] over
    the default integer index. *)
Fixpoint mask_index_from (i : nat) (mask : list bool) : list nat :=
  match mask with
  | [] => []
  | b :: t => if b then i :: mask_index_from (S i) t else mask_index_from (S i) t
  end.

Definition mask_index (mask : list bool) : list nat := mask_index_from 0 mask.

End Series.

(** ** Floats *)

(** Rational arithmetic in lowest terms. *)
Definition qadd (a b : Q) : Q := Qred (a + b).
Definition qsub (a b : Q) : Q := Qred (a - b).
Definition qsum (xs : list Q) : Q := fold_left qadd xs (0 # 1)%Q.
Definition zsum (xs : list Z) : Z := fold_left Z.add xs 0.

Definition Qltb (a b : Q) : bool :=
  match Qcompare a b with Lt => true | _ => false end.

(** [numpy.round]: to the nearest integer, a tie goes to the even one. *)
Definition round_half_even (q : Q) : Z :=
  let f := Qfloor q in
  match Qcompare (q - inject_Z f) (1 # 2) with
  | Lt => f
  | Gt => f + 1
  | Eq => if Z.even f then f else f + 1
  end.

(** The result of a float division: a finite value, an infinity or NaN. *)
Inductive fval : Type :=
| Fin (q : Q)
| PInf
| NInf
| NaN.

(** The exponent of a positive rational: the [e] with 2^e <= q < 2^(e+1). *)
Definition ilog2 (q : Q) : Z :=
  let e := Z.log2 (Qnum q) - Z.log2 (Zpos (Qden q)) in
  if Qltb q (2 ^ e)%Q then e - 1 else e.

(** A positive real rounded to binary64, to nearest with ties to even: 53
    significant bits, the exponent not below -1022 (below it the values
    are subnormal and share one spacing), and overflow ([None]) from
    2^1024 on. *)
Definition round64_pos (q : Q) : option Q :=
  let e := Z.max (ilog2 q) (-1022) in
  let quantum := (2 ^ (e - 52))%Q in
  let r := (inject_Z (round_half_even (q / quantum)) * quantum)%Q in
  if Qle_bool (2 ^ 1024)%Q r then None else Some (Qred r).

(** The binary64 value of a real. *)
Definition round64 (q : Q) : fval :=
  match Qcompare q 0 with
  | Eq => Fin 0
  | Gt => match round64_pos q with Some r => Fin r | None => PInf end
  | Lt => match round64_pos (- q) with Some r => Fin (Qred (- r)) | None => NInf end
  end.

(** [x / y] on two float operands that are finite or NaN ([None]).  A NaN
    operand gives NaN; a zero divisor gives an infinity of the sign of the
    dividend, and NaN for 0/0; numpy raises nothing (pandas silences the
    warnings).  Otherwise the result is the quotient rounded to binary64. *)
Definition fdiv (x y : option Q) : fval :=
  match x, y with
  | Some a, Some b =>
      if Qeq_bool b 0 then
        match Qcompare a 0 with
        | Gt => PInf
        | Lt => NInf
        | Eq => NaN
        end
      else round64 (a / b)
  | _, _ => NaN
  end.

(** [x > r] for a finite threshold [r]; a comparison with NaN is false. *)
Definition fgt (x : fval) (r : Q) : bool :=
  match x with
  | Fin q => Qltb r q
  | PInf => true
  | NInf => false
  | NaN => false
  end.

(** ** Trades *)

(** One public trade: the columns the converter reads. *)
Record Trade : Type := mkTrade {
  t_date : Z;        (* timestamp, milliseconds *)
  t_price : Q;
  t_amount : Q;
  t_side : string
}.

(** [str.contains(pat)] for a pattern without regular-expression
    metacharacters: [pat] occurs somewhere in [s]. *)
Fixpoint str_contains (pat s : string) : bool :=
  if String.prefix pat s then true
  else match s with
       | EmptyString => false
       | String _ s' => str_contains pat s'
       end.

Definition is_sell (t : Trade) : bool := str_contains "sell" (t_side t).
Definition is_buy (t : Trade) : bool := str_contains "buy" (t_side t).

(** ** Grouping *)

Section GroupBy.
Context {K V : Type} (cmp : K -> K -> comparison).

(** Puts one row into the group of its key; groups stay in ascending key
    order and keep their rows in arrival order. *)
Fixpoint group_insert (k : K) (v : V) (gs : list (K * list V)) : list (K * list V) :=
  match gs with
  | [] => [(k, [v])]
  | (k', vs) :: rest =>
      match cmp k k' with
      | Lt => (k, [v]) :: gs
      | Eq => (k', vs ++ [v]) :: rest
      | Gt => (k', vs) :: group_insert k v rest
      end
  end.

(** [DataFrame.groupby(key)]: the groups in ascending key order. *)
Definition groupby (key : V -> K) (rows : list V) : list (K * list V) :=
  fold_left (fun gs r => group_insert (key r) r gs) rows [].
End GroupBy.

(** ** Volume profile *)

(** One row of the order-flow frame: the numeric columns that survive
    [sum(numeric_only=True)]. *)
Record OrderflowRow : Type := mkOrderflowRow {
  of_bid_amount : Q;
  of_ask_amount : Q;
  of_bid : Z;
  of_ask : Z;
  of_delta : Q;
  of_total_volume : Q;
  of_total_trades : Z
}.

(** The order-flow frame: bins indexed by price, ascending. *)
Definition Orderflow : Type := list (Q * OrderflowRow).

(** [((price / scale).round() * scale)], for a scale other than zero, in
    exact arithmetic. *)
Definition price_level (scale price : Q) : Q :=
  Qred (inject_Z (round_half_even (price / scale)) * scale).

(** The row a single trade contributes, before grouping. *)
Definition trade_row (t : Trade) : OrderflowRow :=
  let bid_amount := if is_sell t then t_amount t else 0%Q in
  let ask_amount := if is_buy t then t_amount t else 0%Q in
  let bid := if is_sell t then 1 else 0 in
  let ask := if is_buy t then 1 else 0 in
  {| of_bid_amount := bid_amount;
     of_ask_amount := ask_amount;
     of_bid := bid;
     of_ask := ask;
     of_delta := qsub ask_amount bid_amount;
     of_total_volume := qadd ask_amount bid_amount;
     of_total_trades := ask + bid |}.

(** Column-wise sum of the rows of one bin. *)
Definition sum_rows (rs : list OrderflowRow) : OrderflowRow :=
  {| of_bid_amount := qsum (map of_bid_amount rs);
     of_ask_amount := qsum (map of_ask_amount rs);
     of_bid := zsum (map of_bid rs);
     of_ask := zsum (map of_ask rs);
     of_delta := qsum (map of_delta rs);
     of_total_volume := qsum (map of_total_volume rs);
     of_total_trades := zsum (map of_total_trades rs) |}.

(** [trades_to_volumeprofile_with_total_delta_bid_ask].  Without trades the
    source returns early a frame that has no row (and lacks the columns
    [total_volume] and [total_trades], which a frame with rows has); the
    list of its rows is empty.  With a scale of zero the division gives an
    infinity or NaN for every price and the product with the scale NaN:
    [groupby] drops the rows of a NaN key, so the profile has no bin. *)
Definition trades_to_volumeprofile_with_total_delta_bid_ask
    (trades : list Trade) (scale : Q) : Orderflow :=
  let df := map (fun t => (price_level scale (t_price t), trade_row t)) trades in
  match df with
  | [] => []
  | _ =>
      if Qeq_bool scale 0 then []
      else
        map (fun g => (fst g, sum_rows (map snd (snd g))))
            (groupby Qcompare fst df)
  end.

(** ** Imbalances *)

Record ImbalanceRow : Type := mkImbalanceRow {
  bid_imbalance : bool;
  ask_imbalance : bool
}.

(** The imbalance frame: same index as the order-flow frame it comes from. *)
Definition Imbalances : Type := list (Q * ImbalanceRow).

(** An [int64] count read as a float. *)
Definition float_of_int (z : Z) : option Q := Some (inject_Z z).

(** [numpy.where(total_volume < imbalance_volume, False, flags)]. *)
Definition volume_filter (imbalance_volume : Q) (total_volume : list Q)
    (flags : list bool) : list bool :=
  Series.map2 (fun tv flag => if Qltb tv imbalance_volume then false else flag)
    total_volume flags.

(** [trades_orderflow_to_imbalances].  The columns read are [bid] and [ask],
    the per-bin counts of sell and buy trades. *)
Definition trades_orderflow_to_imbalances
    (df : Orderflow) (imbalance_ratio imbalance_volume : Q) : Imbalances :=
  let bid := map (fun r => float_of_int (of_bid (snd r))) df in
  (* compares bid and ask diagonally *)
  let ask :=
    map (fun o => match o with Some z => float_of_int z | None => None end)
        (Series.shift_up (map (fun r => of_ask (snd r)) df)) in
  let total_volume := map (fun r => of_total_volume (snd r)) df in
  let bid_imbalance :=
    Series.map2 (fun b a => fgt (fdiv b a) imbalance_ratio) bid ask in
  let bid_imbalance_filtered := volume_filter imbalance_volume total_volume bid_imbalance in
  let ask_imbalance :=
    Series.map2 (fun a b => fgt (fdiv a b) imbalance_ratio) ask bid in
  let ask_imbalance_filtered := volume_filter imbalance_volume total_volume ask_imbalance in
  combine (map fst df)
          (Series.map2 mkImbalanceRow bid_imbalance_filtered ask_imbalance_filtered).

(** ** Stacked imbalances *)

(** The two values the [label] argument takes. *)
Inductive Label : Type := bid | ask.

Definition imbalance_column (label : Label) (r : ImbalanceRow) : bool :=
  match label with
  | bid => bid_imbalance r
  | ask => ask_imbalance r
  end.

(** [int_series != int_series.shift()]: NaN differs from every value. *)
Definition ne_shifted (x : Z) (prev : option Z) : bool :=
  match prev with
  | Some y => negb (x =? y)
  | None => true
  end.

(** [int_series * (int_series.groupby(...).cumcount() + 1)]. *)
Definition stacked_series (int_series : list Z) : list Z :=
  let changed := Series.map2 ne_shifted int_series (Series.shift_down int_series) in
  let group_id := Series.cumsum (map (fun b : bool => if b then 1 else 0) changed) in
  Series.map2 Z.mul int_series (map (fun c => c + 1) (Series.cumcount group_id)).

(** [stacked_imbalance]; [None] is the NaN the source returns when no
    position reaches the range. *)
Definition stacked_imbalance (df : Imbalances) (label : Label)
    (stacked_imbalance_range : Z) (should_reverse : bool) : option Q :=
  let imbalance := map (fun r => (fst r, imbalance_column label (snd r))) df in
  let int_series := map (fun r : Q * bool => if snd r then 1 else 0) imbalance in
  let stacked := stacked_series int_series in
  let max_stacked_imbalance_idx :=
    Series.mask_index (map (fun s => stacked_imbalance_range <=? s) stacked) in
  match max_stacked_imbalance_idx with
  | [] => None
  | i0 :: _ =>
      let idx := if should_reverse
                 then hd i0 (rev max_stacked_imbalance_idx)
                 else i0 in
      nth_error (map fst imbalance) idx
  end.

Definition stacked_imbalance_ask (df : Imbalances) (stacked_imbalance_range : Z) : option Q :=
  stacked_imbalance df ask stacked_imbalance_range true.

Definition stacked_imbalance_bid (df : Imbalances) (stacked_imbalance_range : Z) : option Q :=
  stacked_imbalance df bid stacked_imbalance_range false.

(** ** Candle table, cache and configuration *)

Definition Datetime : Type := Z.

(** The columns [ADDED_COLUMNS] of one candle; [None] is the NaN a column
    is initialised with. *)
Record Added : Type := mkAdded {
  trades : option (list Trade);
  orderflow : option Orderflow;
  imbalances : option Imbalances;
  stacked_imbalances_bid : option Q;
  stacked_imbalances_ask : option Q;
  max_delta : option Q;
  min_delta : option Q;
  bid_volume : option Q;      (* column "bid" *)
  ask_volume : option Q;      (* column "ask" *)
  delta : option Q;
  total_trades : option Z
}.

Definition unset : Added :=
  mkAdded None None None None None None None None None None None.

(** One row of the candle table: its start, the OHLCV columns, and the
    added columns. *)
Record Candle : Type := mkCandle {
  date : Datetime;
  ohlcv : Q * Q * Q * Q * Q;
  added : Added
}.

Definition CacheKey : Type := (Datetime * Datetime)%type.

(** [OrderedDict[tuple[datetime, datetime], pd.DataFrame]], oldest insertion
    first; an entry is a copy of the candle rows of one interval. *)
Definition Cache : Type := list (CacheKey * list Candle).

Definition key_eqb (k1 k2 : CacheKey) : bool :=
  (fst k1 =? fst k2) && (snd k1 =? snd k2).

Module OrderedDict.

(** [d[k]] when [k in d]. *)
Fixpoint get {V : Type} (k : CacheKey) (d : list (CacheKey * V)) : option V :=
  match d with
  | [] => None
  | (k', v) :: rest => if key_eqb k k' then Some v else get k rest
  end.

(** [d[k] = v]: a key already present keeps its place, a new key goes
    to the end. *)
Fixpoint set {V : Type} (k : CacheKey) (v : V) (d : list (CacheKey * V)) : list (CacheKey * V) :=
  match d with
  | [] => [(k, v)]
  | (k', v') :: rest =>
      if key_eqb k k' then (k', v) :: rest else (k', v') :: set k v rest
  end.

(** [d.popitem(last=False)] on a non-empty dictionary. *)
Definition popitem_first {V : Type} (d : list (CacheKey * V)) : list (CacheKey * V) :=
  tl d.

End OrderedDict.

(** Modelled from the spec: the enumeration [RunMode] of [freqtrade.enums],
    a run-mode flag distinguishing live ([LIVE]) and simulated-live
    ([DRY_RUN]) from backtesting and the other modes. *)
Inductive RunMode : Type := LIVE | DRY_RUN | BACKTEST | OTHER.

Record OrderflowConfig : Type := mkOrderflowConfig {
  max_candles : Z;
  scale : Q;
  imbalance_ratio : Q;
  imbalance_volume : Q;
  stacked_imbalance_range : Z;
  cache_size : Z
}.

Record Config : Type := mkConfig {
  timeframe : string;
  config_orderflow : OrderflowConfig;
  runmode : option RunMode       (* config.get("runmode") *)
}.

(** [config.get("runmode") in (RunMode.DRY_RUN, RunMode.LIVE)]. *)
Definition live_or_dry_run (config : Config) : bool :=
  match runmode config with
  | Some DRY_RUN | Some LIVE => true
  | _ => false
  end.

(** ** Exceptions, log and store *)

Inductive Exception : Type :=
| IndexError
| ValueError
| ExternalError (msg : string)           (* raised by a collaborator *)
| DependencyException (cause : Exception).

Inductive LogRecord : Type :=
| warning_unfinished (candle_start : Datetime) (n_trades : nat) (candle_next : Datetime)
| debug_no_candles (candle_start : Datetime)
| debug_elapsed
| exception_logged (e : Exception).      (* logger.exception *)

(** The objects the routine mutates in place, and the log it writes to. *)
Record Store : Type := mkStore {
  dataframe : list Candle;
  cached_grouped_trades : Cache;
  log : list LogRecord
}.

(** A computation over the store that returns a value or raises; the store
    it leaves behind is kept in both cases. *)
Definition M (A : Type) : Type := Store -> Store * (Exception + A).

Definition ret {A : Type} (a : A) : M A := fun s => (s, inr a).

Definition raise {A : Type} (e : Exception) : M A := fun s => (s, inl e).

Definition bind {A B : Type} (m : M A) (k : A -> M B) : M B :=
  fun s =>
    match m s with
    | (s', inr a) => k a s'
    | (s', inl e) => (s', inl e)
    end.

Declare Scope orderflow_scope.
Delimit Scope orderflow_scope with orderflow.
Notation "x <- m ;; k" := (bind m (fun x => k))
  (at level 61, m at next level, right associativity) : orderflow_scope.
Notation "m ;; k" := (bind m (fun _ => k))
  (at level 61, right associativity) : orderflow_scope.
Local Open Scope orderflow_scope.

(** [try: body except Exception as e: handler e]. *)
Definition try_except {A : Type} (body : M A) (handler : Exception -> M A) : M A :=
  fun s =>
    match body s with
    | (s', inr a) => (s', inr a)
    | (s', inl e) => handler e s'
    end.

(** The result of a pure call that may raise. *)
Definition lift {A : Type} (r : Exception + A) : M A :=
  match r with
  | inr a => ret a
  | inl e => raise e
  end.

Definition get_dataframe : M (list Candle) := fun s => (s, inr (dataframe s)).
Definition get_cache : M Cache := fun s => (s, inr (cached_grouped_trades s)).

Definition put_dataframe (df : list Candle) : M unit :=
  fun s => (mkStore df (cached_grouped_trades s) (log s), inr tt).

Definition put_cache (c : Cache) : M unit :=
  fun s => (mkStore (dataframe s) c (log s), inr tt).

Definition log_record (r : LogRecord) : M unit :=
  fun s => (mkStore (dataframe s) (cached_grouped_trades s) (log s ++ [r]), inr tt).

Fixpoint for_each {A : Type} (f : A -> M unit) (xs : list A) : M unit :=
  match xs with
  | [] => ret tt
  | x :: t => f x ;; for_each f t
  end.

(** The same for pure calls that may raise: the first exception wins. *)
Fixpoint map_exc {A B : Type} (f : A -> Exception + B) (xs : list A) : Exception + list B :=
  match xs with
  | [] => inr []
  | x :: t =>
      match f x with
      | inl e => inl e
      | inr y =>
          match map_exc f t with
          | inl e => inl e
          | inr ys => inr (y :: ys)
          end
      end
  end.

(** ** Populating the candle table *)

(** [_init_dataframe_with_trades_columns]: every added column of every row
    becomes NaN, whatever it held. *)
Definition init_row (c : Candle) : Candle := mkCandle (date c) (ohlcv c) unset.

Definition _init_dataframe_with_trades_columns : M unit :=
  df <- get_dataframe ;;
  put_dataframe (map init_row df).

(** A trade with the two columns [_calculate_ohlcv_candle_start_and_end]
    adds. *)
Record CandleTrade : Type := mkCandleTrade {
  trade : Trade;
  candle_start : Datetime;
  candle_end : Datetime
}.

(** [DataFrame.tail(n)]: nothing for 0, the last [n] rows for a positive
    [n], all but the first [-n] rows for a negative one. *)
Definition tail {A : Type} (n : Z) (xs : list A) : list A :=
  if n =? 0 then []
  else if 0 <? n then skipn (length xs - Z.to_nat n) xs
  else skipn (Z.to_nat (- n)) xs.

(** [series.iat[0]]. *)
Definition iat0 {A : Type} (xs : list A) : Exception + A :=
  match xs with
  | [] => inl IndexError
  | x :: _ => inr x
  end.

(** Replaces the row at one position. *)
Fixpoint update_at (index : nat) (f : Candle -> Candle) (df : list Candle) : list Candle :=
  match df, index with
  | [], _ => []
  | c :: t, O => f c :: t
  | c :: t, S i => c :: update_at i f t
  end.

(** [dataframe.at[index, column] = value] for one or more added columns. *)
Definition set_at (index : nat) (f : Added -> Added) : M unit :=
  df <- get_dataframe ;;
  put_dataframe
    (update_at index (fun c => mkCandle (date c) (ohlcv c) (f (added c))) df).

(** Position of the first [true] of a mask. *)
Definition first_true (mask : list bool) : nat :=
  hd O (Series.mask_index mask).

(** [dataframe.loc[mask]]. *)
Definition loc {A : Type} (mask : list bool) (df : list A) : list A :=
  map snd (filter fst (combine mask df)).

(** Cumulative sums of a float column. *)
Fixpoint qcumsum_from (acc : Q) (xs : list Q) : list Q :=
  match xs with
  | [] => []
  | x :: t => qadd acc x :: qcumsum_from (qadd acc x) t
  end.

Definition Qmin_ (a b : Q) : Q := if Qltb b a then b else a.
Definition Qmax_ (a b : Q) : Q := if Qltb a b then b else a.

(** [array.min()] and [array.max()]; numpy raises [ValueError] on an array
    without elements. *)
Definition array_min (xs : list Q) : Exception + Q :=
  match xs with
  | [] => inl ValueError
  | x :: t => inr (fold_left Qmin_ t x)
  end.

Definition array_max (xs : list Q) : Exception + Q :=
  match xs with
  | [] => inl ValueError
  | x :: t => inr (fold_left Qmax_ t x)
  end.

Section Populate.

(** The collaborators of [freqtrade.exchange] and the flooring of pandas:
    each returns a value or raises. *)
Variable timeframe_to_resample_freq : string -> Exception + string.
Variable dt_floor : string -> Datetime -> Exception + Datetime.
Variable timeframe_to_next_date : string -> Datetime -> Exception + Datetime.

(** [_calculate_ohlcv_candle_start_and_end] on a trade table that has
    rows.  [pd.to_datetime(unit="ms")] is the identity on [Datetime]. *)
Definition _calculate_ohlcv_candle_start_and_end
    (df : list Trade) (timeframe : string) : Exception + list CandleTrade :=
  match timeframe_to_resample_freq timeframe with
  | inl e => inl e
  | inr timeframe_frequency =>
      match map_exc (fun t => dt_floor timeframe_frequency (t_date t)) df with
      | inl e => inl e
      | inr starts =>
          match map_exc (timeframe_to_next_date timeframe) starts with
          | inl e => inl e
          | inr ends =>
              inr (Series.map2 (fun t se => mkCandleTrade t (fst se) (snd se))
                     df (combine starts ends))
          end
      end
  end.

(** The body of the loop over the groups, for one group. *)
Definition process_group (config : Config)
    (groups : list (Datetime * list CandleTrade))
    (group : Datetime * list CandleTrade) : M unit :=
  let candle_start := fst group in
  let trades_grouped_df := snd group in
  let co := config_orderflow config in
  df <- get_dataframe ;;
  let is_between := map (fun c => candle_start =? date c) df in
  if existsb (fun b => b) is_between then
    candle_next <- lift (timeframe_to_next_date (timeframe config) candle_start) ;;
    (if existsb (fun g => candle_next =? fst g) groups then ret tt
     else log_record
            (warning_unfinished candle_start (length trades_grouped_df) candle_next)) ;;
    cache <- get_cache ;;
    match OrderedDict.get (candle_start, candle_next) cache with
    | Some cache_entry =>
        (* update_dict = {c: cache_entry[c].iat[0] for c in cache_entry.columns} *)
        update_dict <- lift (iat0 cache_entry) ;;
        (* pd.DataFrame([update_dict], index=...) repeats the one row over
           the index: every row of the date receives it *)
        put_dataframe
          (Series.map2 (fun (b : bool) c => if b then update_dict else c) is_between df)
    | None =>
        (* there can only be one row with the same date *)
        let index := first_true is_between in
        let group_trades := map trade trades_grouped_df in
        set_at index (fun a =>
          mkAdded (Some group_trades) (orderflow a) (imbalances a)
            (stacked_imbalances_bid a) (stacked_imbalances_ask a) (max_delta a)
            (min_delta a) (bid_volume a) (ask_volume a) (delta a) (total_trades a)) ;;
        let orderflow_df :=
          trades_to_volumeprofile_with_total_delta_bid_ask group_trades (scale co) in
        let imbalances_df :=
          trades_orderflow_to_imbalances orderflow_df
            (imbalance_ratio co) (imbalance_volume co) in
        let stacked_range := stacked_imbalance_range co in
        set_at index (fun a =>
          mkAdded (trades a) (Some orderflow_df) (Some imbalances_df)
            (stacked_imbalance_bid imbalances_df stacked_range)
            (stacked_imbalance_ask imbalances_df stacked_range) (max_delta a)
            (min_delta a) (bid_volume a) (ask_volume a) (delta a) (total_trades a)) ;;
        let bid := map (fun t => if is_sell t then t_amount t else 0%Q) group_trades in
        let ask := map (fun t => if is_buy t then t_amount t else 0%Q) group_trades in
        let deltas_per_trade := Series.map2 qsub ask bid in
        min_d <- lift (array_min (qcumsum_from 0%Q deltas_per_trade)) ;;
        max_d <- lift (array_max (qcumsum_from 0%Q deltas_per_trade)) ;;
        set_at index (fun a =>
          mkAdded (trades a) (orderflow a) (imbalances a)
            (stacked_imbalances_bid a) (stacked_imbalances_ask a) (Some max_d)
            (Some min_d) (Some (qsum bid)) (Some (qsum ask))
            (Some (qsub (qsum ask) (qsum bid)))
            (Some (Z.of_nat (length trades_grouped_df)))) ;;
        (* Cache the result *)
        df' <- get_dataframe ;;
        put_cache (OrderedDict.set (candle_start, candle_next) (loc is_between df') cache) ;;
        (* Maintain cache size *)
        cache' <- get_cache ;;
        if live_or_dry_run config && (cache_size co <? Z.of_nat (length cache'))
        then put_cache (OrderedDict.popitem_first cache')
        else ret tt
    end
  else log_record (debug_no_candles candle_start).

(** The statements inside [try]. *)
Definition processing (config : Config) (trades_df : list Trade) : M unit :=
  let co := config_orderflow config in
  (* calculate ohlcv candle start and end *)
  trades_c <- lift (_calculate_ohlcv_candle_start_and_end trades_df (timeframe config)) ;;
  (* get date of earliest max_candles candle *)
  df <- get_dataframe ;;
  start_date <- lift (iat0 (map date (tail (max_candles co) df))) ;;
  (* slice of trades that are before current ohlcv candles *)
  let trades_w := filter (fun t => start_date <=? candle_start t) trades_c in
  (* group trades by candle start *)
  let trades_grouped_by_candle_start := groupby Z.compare candle_start trades_w in
  for_each (process_group config trades_grouped_by_candle_start)
           trades_grouped_by_candle_start ;;
  log_record debug_elapsed.

(** [populate_dataframe_with_trades].  The table and the cache are the
    objects of the store; the value returned is the pair of them.  A
    trade table that is [None] or has no row takes the early return. *)
Definition populate_dataframe_with_trades (config : Config)
    (trades_df : option (list Trade)) : M (list Candle * Cache) :=
  (* create columns for trades *)
  _init_dataframe_with_trades_columns ;;
  match trades_df with
  | None | Some [] =>
      df <- get_dataframe ;; cache <- get_cache ;; ret (df, cache)
  | Some trades_df =>
      try_except
        (processing config trades_df)
        (fun e => log_record (exception_logged e) ;; raise (DependencyException e)) ;;
      df <- get_dataframe ;; cache <- get_cache ;; ret (df, cache)
  end.

End Populate.

(** * Vocabulary of the statements *)

(** The [ask] count of the bin above bin [i], as the shifted column holds
    it: NaN above the topmost bin. *)
Definition diagonal_ask (df : Orderflow) (i : nat) : option Q :=
  match nth_error df (S i) with
  | Some r => float_of_int (of_ask (snd r))
  | None => None
  end.

(** A float is above a finite threshold. *)
Definition above (x : fval) (r : Q) : Prop :=
  match x with
  | Fin q => (r < q)%Q
  | PInf => True
  | NInf => False
  | NaN => False
  end.

(** The float quotient [num / den] exceeds [r]: the quotient rounded to
    binary64 is above [r]; a zero divisor makes the quotient infinite
    under a positive dividend and undefined otherwise. *)
Definition exceeds (num den r : Q) : Prop :=
  (~ (den == 0)%Q /\ above (round64 (num / den)) r) \/
  ((den == 0)%Q /\ (0 < num)%Q).

(** The binary64 value of the decimal 1.4. *)
Definition float_1_4 : Q := (6305039478318694 # 4503599627370496)%Q.

(** The reading of the detector by traded amounts: the flags of bin [i]
    compare [bid_amount] of the bin with [ask_amount] of the bin above. *)
Definition flags_by_amount (df : Orderflow) (ratio vol : Q) (i : nat) : Prop :=
  forall p r p' r' row,
    nth_error df i = Some (p, r) ->
    nth_error df (S i) = Some (p', r') ->
    nth_error (trades_orderflow_to_imbalances df ratio vol) i = Some (p, row) ->
    (bid_imbalance row = true <->
       ~ (of_total_volume r < vol)%Q /\
       exceeds (of_bid_amount r) (of_ask_amount r') ratio) /\
    (ask_imbalance row = true <->
       ~ (of_total_volume r < vol)%Q /\
       exceeds (of_ask_amount r') (of_bid_amount r) ratio).

(** One-minute candles: the collaborators at timeframe "1m", timestamps in
    milliseconds. *)
Definition minute_freq (timeframe : string) : Exception + string := inr "1min"%string.
Definition minute_floor (freq : string) (d : Datetime) : Exception + Datetime :=
  inr (60000 * (d / 60000)).
Definition minute_next (timeframe : string) (d : Datetime) : Exception + Datetime :=
  inr (d + 60000).

(** 10:00 of the first day, in milliseconds. *)
Definition ten_o_clock : Datetime := 36000000.

(** Three trades of the interval from 10:00 to 10:01. *)
Definition three_trades : list Trade :=
  [ mkTrade (ten_o_clock + 1000) 100 2 "buy";
    mkTrade (ten_o_clock + 2000) 100 1 "sell";
    mkTrade (ten_o_clock + 3000) (201 # 2) 5 "buy" ].

Definition three_trades_profile : Orderflow :=
  [ (100%Q, mkOrderflowRow 1 2 1 1 1 3 2);
    ((201 # 2)%Q, mkOrderflowRow 0 5 0 1 5 5 1) ].

(** A sell of 10 at 100.0 under a buy of 1 at 100.5. *)
Definition sell_under_buy : list Trade :=
  [ mkTrade ten_o_clock 100 10 "sell"; mkTrade ten_o_clock (201 # 2) 1 "buy" ].

Definition plain_candle (d : Datetime) : Candle := mkCandle d (0, 0, 0, 0, 0)%Q unset.

Definition plain_config (mode : option RunMode) (size : Z) : Config :=
  mkConfig "1m" (mkOrderflowConfig 10 (1 # 2) 3 0 2 size) mode.

(** The run of consecutive [true] values that ends at a position: the
    [true] values met walking down from the position until the first
    [false] or the start of the sequence. *)
Fixpoint leading_trues (bs : list bool) : nat :=
  match bs with
  | true :: t => S (leading_trues t)
  | _ => O
  end.

Definition run_ending_at (bs : list bool) (i : nat) : nat :=
  leading_trues (rev (firstn (S i) bs)).

(** A position of the sequence qualifies when the run ending at it has at
    least [range] values. *)
Definition qualifies (bs : list bool) (range : Z) (i : nat) : Prop :=
  (i < length bs)%nat /\ range <= Z.of_nat (run_ending_at bs i).

(** The price a table carries at a position. *)
Definition price_at {R : Type} (df : list (Q * R)) (i : nat) : option Q :=
  option_map fst (nth_error df i).

(** The cache after a group: untouched, or one entry appended under a key
    that was absent, with the head removed when the run mode is live or
    dry-run and the size is exceeded. *)
Definition cache_step (config : Config) (before after : Cache) : Prop :=
  after = before \/
  exists key entry,
    OrderedDict.get key before = None /\
    let inserted := before ++ [(key, entry)] in
    after =
    if live_or_dry_run config &&
       (cache_size (config_orderflow config) <? Z.of_nat (length inserted))
    then tl inserted else inserted.

(** The groups the loop runs over: the trades with their candle start and
    end, those before the window dropped, grouped by candle start. *)
Definition trade_groups
    (timeframe_to_resample_freq : string -> Exception + string)
    (dt_floor : string -> Datetime -> Exception + Datetime)
    (timeframe_to_next_date : string -> Datetime -> Exception + Datetime)
    (config : Config) (trades_df : list Trade) (df : list Candle)
    : Exception + list (Datetime * list CandleTrade) :=
  match _calculate_ohlcv_candle_start_and_end timeframe_to_resample_freq dt_floor
          timeframe_to_next_date trades_df (timeframe config) with
  | inl e => inl e
  | inr trades_c =>
      match iat0 (map date (tail (max_candles (config_orderflow config)) df)) with
      | inl e => inl e
      | inr start_date =>
          inr (groupby Z.compare candle_start
                 (filter (fun t => start_date <=? candle_start t) trades_c))
      end
  end.

(** The store once the added columns are initialised. *)
Definition initialised (s : Store) : Store :=
  mkStore (map init_row (dataframe s)) (cached_grouped_trades s) (log s).

(** The store with one more log record. *)
Definition logged (r : LogRecord) (s : Store) : Store :=
  mkStore (dataframe s) (cached_grouped_trades s) (log s ++ [r]).

(** A cache that holds one entry, for the interval one hour before 10:00. *)
Definition old_key : CacheKey := (ten_o_clock - 3600000, ten_o_clock - 3540000).

Definition old_cache : Cache := [ (old_key, [plain_candle (ten_o_clock - 3600000)]) ].

(** The cache after one call on the three trades, by run mode, for a cache
    size of 1. *)
Definition cache_after (mode : option RunMode) : Cache :=
  cached_grouped_trades
    (fst (populate_dataframe_with_trades minute_freq minute_floor minute_next
            (plain_config mode 1) (Some three_trades)
            (mkStore [plain_candle ten_o_clock] old_cache []))).

(** A collaborator that knows no timeframe. *)
Definition unknown_timeframe (timeframe : string) : Exception + string :=
  inl (ExternalError "unknown timeframe").

(** The rows of a table that fall into the group of key [k]. *)
Definition in_group {K V : Type} (cmp : K -> K -> comparison) (key : V -> K)
    (k : K) (r : V) : bool :=
  match cmp (key r) k with
  | Eq => true
  | _ => false
  end.

(** What [groupby] promises about its result: keys strictly ascending, and
    each group holding, in arrival order, the rows of its key, the first of
    which gave the group its key. *)
Definition grouped {K V : Type} (cmp : K -> K -> comparison) (key : V -> K)
    (rows : list V) (gs : list (K * list V)) : Prop :=
  StronglySorted (fun a b => cmp a b = Lt) (map fst gs) /\
  (forall k vs, In (k, vs) gs ->
     vs = filter (in_group cmp key k) rows /\
     exists r rest, vs = r :: rest /\ k = key r) /\
  (forall r, In r rows ->
     exists k, In k (map fst gs) /\ in_group cmp key k r = true).

(** The trades of a table that fall into the bin of price [p]. *)
Definition trades_at (scale p : Q) (trades_df : list Trade) : list Trade :=
  filter (fun t => in_group Qcompare (fun q : Q => q) p (price_level scale (t_price t)))
    trades_df.

(** * Auxiliary definitions of the proofs *)

(** Run lengths by a single pass, the count carried along. *)
Fixpoint run_lengths_from (c : nat) (bs : list bool) : list nat :=
  match bs with
  | [] => []
  | b :: t =>
      let c' := if b then S c else O in
      c' :: run_lengths_from c' t
  end.

Definition int_of_bool (b : bool) : Z := if b then 1 else 0.

Definition shift_down_from {A : Type} (prev : option A) (xs : list A) : list (option A) :=
  firstn (length xs) (prev :: map Some xs).

(** The pipeline of [stacked_series], started in the middle of a column. *)
Definition stacked_from (prev : option Z) (acc : Z) (seen : list Z) (xs : list Z) : list Z :=
  Series.map2 Z.mul xs
    (map (fun c => c + 1)
       (Series.cumcount_from seen
          (Series.cumsum_from acc
             (map (fun b : bool => if b then 1 else 0)
                (Series.map2 ne_shifted xs (shift_down_from prev xs)))))).

(** What the pass knows after a prefix: no group number seen exceeds the
    current one, and inside a run of [true] the current group has as many
    members as the run is long. *)
Definition pass_invariant (prev : option Z) (acc : Z) (seen : list Z) (c : nat) : Prop :=
  (forall g, In g seen -> g <= acc) /\
  match prev with
  | None => c = O
  | Some p =>
      exists pb : bool,
        p = int_of_bool pb /\
        if pb then count_occ Z.eq_dec seen acc = c else c = O
  end.

(** The cache once an entry is inserted at its end and its size
    maintained. *)
Definition cache_after_insert (config : Config) (cache : Cache)
    (key : CacheKey) (entry : list Candle) : Cache :=
  let inserted := cache ++ [(key, entry)] in
  if live_or_dry_run config &&
     (cache_size (config_orderflow config) <? Z.of_nat (length inserted))
  then tl inserted else inserted.

(** The mask [stacked >= stacked_imbalance_range] of the scan. *)
Definition scan_mask (bs : list bool) (range : Z) : list bool :=
  map (fun s => range <=? s) (stacked_series (map int_of_bool bs)).

(** Symbolic execution of a computation over the store: unfold the
    plumbing, then decide the tests of the code one by one, innermost
    first. *)
Ltac run_store :=
  cbv beta iota zeta delta
    [process_group bind ret raise lift get_dataframe get_cache put_dataframe
     put_cache log_record set_at try_except];
  cbn [dataframe cached_grouped_trades log fst snd].

Ltac decide_test :=
  match goal with
  | |- context [match ?x with _ => _ end] =>
      lazymatch x with
      | match _ with _ => _ end => fail
      | (match _ with _ => _ end) _ => fail
      | _ => destruct x eqn:?
      end
  end.

Ltac run_cases :=
  run_store;
  repeat (decide_test; cbv beta iota zeta;
          cbn [dataframe cached_grouped_trades log fst snd]).

(** * Properties *)

(** ** Columns, position by position *)

Lemma map2_nth_error {A B C : Type} (f : A -> B -> C) (xs : list A) (ys : list B) (i : nat) :
  nth_error (Series.map2 f xs ys) i =
  match nth_error xs i, nth_error ys i with
  | Some x, Some y => Some (f x y)
  | _, _ => None
  end.
Proof.
  revert ys i; induction xs as [|x xs IH]; intros [|y ys] [|i]; simpl; auto;
    destruct (nth_error xs i); reflexivity.
Qed.

Lemma map2_length {A B C : Type} (f : A -> B -> C) (xs : list A) (ys : list B) :
  length (Series.map2 f xs ys) = Nat.min (length xs) (length ys).
Proof.
  revert ys; induction xs as [|x xs IH]; intros [|y ys]; simpl; auto.
Qed.

Lemma combine_nth_error {A B : Type} (xs : list A) (ys : list B) (i : nat) :
  nth_error (combine xs ys) i =
  match nth_error xs i, nth_error ys i with
  | Some x, Some y => Some (x, y)
  | _, _ => None
  end.
Proof.
  revert ys i; induction xs as [|x xs IH]; intros [|y ys] [|i]; simpl; auto;
    destruct (nth_error xs i); reflexivity.
Qed.

Lemma shift_up_length {A : Type} (xs : list A) :
  length (Series.shift_up xs) = length xs.
Proof.
  destruct xs as [|x t]; simpl; auto.
  rewrite length_app, length_map; simpl; lia.
Qed.

Lemma shift_up_nth_error {A : Type} (xs : list A) (i : nat) (x : A) :
  nth_error xs i = Some x ->
  nth_error (Series.shift_up xs) i = Some (nth_error xs (S i)).
Proof.
  destruct xs as [|y t]; [destruct i; discriminate|].
  intros Hi. simpl.
  assert (Hlt : (i < length (y :: t))%nat) by (apply nth_error_Some; congruence).
  simpl in Hlt.
  destruct (Nat.eq_dec i (length t)) as [->|Hne].
  - rewrite nth_error_app2 by (rewrite length_map; lia).
    rewrite length_map, Nat.sub_diag. simpl.
    symmetry. f_equal. apply nth_error_None. lia.
  - rewrite nth_error_app1 by (rewrite length_map; lia).
    rewrite nth_error_map.
    destruct (nth_error t i) eqn:E; [reflexivity|].
    apply nth_error_None in E. lia.
Qed.

(** ** The imbalance detector, bin by bin *)

Lemma imbalances_length (df : Orderflow) (ratio vol : Q) :
  length (trades_orderflow_to_imbalances df ratio vol) = length df.
Proof.
  unfold trades_orderflow_to_imbalances, volume_filter.
  rewrite length_combine.
  repeat (rewrite ?map2_length, ?length_map, ?shift_up_length).
  lia.
Qed.

Lemma imbalances_index (df : Orderflow) (ratio vol : Q) :
  map fst (trades_orderflow_to_imbalances df ratio vol) = map fst df.
Proof.
  unfold trades_orderflow_to_imbalances.
  set (rows := Series.map2 _ _ _).
  assert (Hlen : length rows = length (map fst df)).
  { subst rows. unfold volume_filter.
    repeat (rewrite ?map2_length, ?length_map, ?shift_up_length). lia. }
  clearbody rows. revert rows Hlen.
  induction (map fst df) as [|p ps IH]; intros [|r rows] Hlen;
    simpl in *; try discriminate; auto.
  f_equal. apply IH. lia.
Qed.

Lemma imbalances_at (df : Orderflow) (ratio vol : Q) (i : nat) (p : Q) (r : OrderflowRow) :
  nth_error df i = Some (p, r) ->
  nth_error (trades_orderflow_to_imbalances df ratio vol) i =
  Some (p,
        {| bid_imbalance :=
             if Qltb (of_total_volume r) vol then false
             else fgt (fdiv (float_of_int (of_bid r)) (diagonal_ask df i)) ratio;
           ask_imbalance :=
             if Qltb (of_total_volume r) vol then false
             else fgt (fdiv (diagonal_ask df i) (float_of_int (of_bid r))) ratio |}).
Proof.
  intros Hi.
  unfold trades_orderflow_to_imbalances, volume_filter.
  rewrite combine_nth_error.
  repeat (rewrite ?map2_nth_error, ?nth_error_map).
  rewrite Hi. cbn [option_map fst snd].
  erewrite shift_up_nth_error
    by (rewrite nth_error_map, Hi; reflexivity).
  cbn [option_map]. rewrite nth_error_map. unfold diagonal_ask.
  destruct (nth_error df (S i)) as [[p' r']|]; reflexivity.
Qed.

Lemma Qltb_lt (a b : Q) : Qltb a b = true <-> (a < b)%Q.
Proof.
  unfold Qltb. rewrite Qlt_alt.
  destruct (a ?= b)%Q; split; congruence.
Qed.

Lemma fgt_above (x : fval) (r : Q) : fgt x r = true <-> above x r.
Proof.
  destruct x as [q| | |]; simpl.
  - apply Qltb_lt.
  - split; trivial.
  - split; [discriminate|intros []].
  - split; [discriminate|intros []].
Qed.

Lemma fgt_fdiv_exceeds (a b r : Q) :
  fgt (fdiv (Some a) (Some b)) r = true <-> exceeds a b r.
Proof.
  unfold fdiv, exceeds.
  destruct (Qeq_bool b 0) eqn:Eb.
  - apply Qeq_bool_iff in Eb.
    destruct (a ?= 0)%Q eqn:Ea; simpl.
    + split; [discriminate|].
      intros [[Hb _]|[_ Ha]]; [contradiction|].
      apply Qgt_alt in Ha. congruence.
    + split; [discriminate|].
      intros [[Hb _]|[_ Ha]]; [contradiction|].
      apply Qgt_alt in Ha. congruence.
    + split; [|reflexivity].
      intros _. right. split; [assumption|]. apply Qgt_alt. assumption.
  - assert (Hb : ~ (b == 0)%Q).
    { intros H. apply Qeq_bool_iff in H. congruence. }
    rewrite fgt_above. split.
    + intros H. left. split; assumption.
    + intros [[_ H]|[H _]]; [assumption|contradiction].
Qed.

(** ** The claims on the imbalance detector *)

(** C8.  A bin whose total volume is strictly below [imbalance_volume] has
    both imbalance flags false, whatever the two ratios are. *)
Theorem small_volume_bin_has_no_imbalance
    (df : Orderflow) (ratio vol : Q) (i : nat) (p : Q) (r : OrderflowRow) :
  nth_error df i = Some (p, r) ->
  (of_total_volume r < vol)%Q ->
  nth_error (trades_orderflow_to_imbalances df ratio vol) i =
  Some (p, mkImbalanceRow false false).
Proof.
  intros Hi Hvol.
  rewrite (imbalances_at df ratio vol i p r Hi).
  apply Qltb_lt in Hvol. rewrite Hvol. reflexivity.
Qed.

Lemma small_volume_bin_has_no_imbalance_witness :
  nth_error
    (trades_orderflow_to_imbalances
       (trades_to_volumeprofile_with_total_delta_bid_ask sell_under_buy (1 # 2))
       (0 # 1) (100 # 1)) 0 =
  Some (100%Q, mkImbalanceRow false false).
Proof.
  apply (small_volume_bin_has_no_imbalance
           (trades_to_volumeprofile_with_total_delta_bid_ask sell_under_buy (1 # 2))
           (0 # 1) (100 # 1) 0 100%Q (mkOrderflowRow 10 0 1 0 (-10) 10 1)).
  - reflexivity.
  - reflexivity.
Defined.

(** C9.  The imbalance table has one row per bin, and for a profile that
    has bins the row of the topmost bin, the one of the highest price, has
    both flags false. *)
Theorem topmost_bin_has_no_imbalance (df : Orderflow) (ratio vol : Q) :
  df <> [] ->
  length (trades_orderflow_to_imbalances df ratio vol) = length df /\
  exists p,
    option_map fst (nth_error df (length df - 1)) = Some p /\
    nth_error (trades_orderflow_to_imbalances df ratio vol) (length df - 1) =
    Some (p, mkImbalanceRow false false).
Proof.
  intros Hne. split; [apply imbalances_length|].
  destruct (nth_error df (length df - 1)) as [[p r]|] eqn:Hlast.
  - exists p. split; [reflexivity|].
    rewrite (imbalances_at df ratio vol _ p r Hlast).
    unfold diagonal_ask.
    replace (nth_error df (S (length df - 1))) with (@None (Q * OrderflowRow)).
    + simpl. destruct (Qltb (of_total_volume r) vol); reflexivity.
    + symmetry. apply nth_error_None. lia.
  - apply nth_error_None in Hlast.
    destruct df; [contradiction|simpl in Hlast; lia].
Qed.

Lemma topmost_bin_has_no_imbalance_witness :
  nth_error
    (trades_orderflow_to_imbalances three_trades_profile (0 # 1) (0 # 1)) 1 =
  Some ((201 # 2)%Q, mkImbalanceRow false false).
Proof.
  destruct (topmost_bin_has_no_imbalance three_trades_profile (0 # 1) (0 # 1))
    as [_ [p [Hp Hrow]]].
  - discriminate.
  - simpl in Hp. injection Hp as <-. exact Hrow.
Defined.

Lemma inject_Z_pos (z : Z) : 0 < z -> (inject_Z z ?= 0)%Q = Gt.
Proof.
  intros H. apply Qgt_alt. unfold Qlt. simpl. lia.
Qed.

(** C10.  Division by zero in the detector: with enough volume in the bin,
    a positive count over a zero count is an infinite ratio and sets the
    flag; zero over zero is undefined and leaves both flags false.  The
    row is produced in every case. *)
Theorem zero_count_policy
    (df : Orderflow) (ratio vol : Q) (i : nat) (p p' : Q) (r r' : OrderflowRow) :
  nth_error df i = Some (p, r) ->
  nth_error df (S i) = Some (p', r') ->
  exists row,
    nth_error (trades_orderflow_to_imbalances df ratio vol) i = Some (p, row) /\
    (~ (of_total_volume r < vol)%Q -> 0 < of_bid r -> of_ask r' = 0 ->
     bid_imbalance row = true) /\
    (~ (of_total_volume r < vol)%Q -> 0 < of_ask r' -> of_bid r = 0 ->
     ask_imbalance row = true) /\
    (of_bid r = 0 -> of_ask r' = 0 ->
     bid_imbalance row = false /\ ask_imbalance row = false).
Proof.
  intros Hi Hnext.
  eexists. split; [apply (imbalances_at df ratio vol i p r Hi)|].
  unfold diagonal_ask. rewrite Hnext. cbn [snd bid_imbalance ask_imbalance].
  assert (Hvol : ~ (of_total_volume r < vol)%Q -> Qltb (of_total_volume r) vol = false).
  { intros H. destruct (Qltb (of_total_volume r) vol) eqn:E; [|reflexivity].
    apply Qltb_lt in E. contradiction. }
  split; [|split].
  - intros Hv Hb Ha. rewrite (Hvol Hv), Ha.
    unfold float_of_int, fdiv. simpl Qeq_bool.
    rewrite (inject_Z_pos _ Hb). reflexivity.
  - intros Hv Ha Hb. rewrite (Hvol Hv), Hb.
    unfold float_of_int, fdiv. simpl Qeq_bool.
    rewrite (inject_Z_pos _ Ha). reflexivity.
  - intros Hb Ha. rewrite Hb, Ha.
    destruct (Qltb (of_total_volume r) vol); split; reflexivity.
Qed.

Lemma zero_count_policy_witness :
  exists row,
    nth_error
      (trades_orderflow_to_imbalances
         [ (100%Q, mkOrderflowRow 4 0 2 0 (-4) 4 2);
           ((201 # 2)%Q, mkOrderflowRow 3 0 1 0 (-3) 3 1) ] (3 # 1) (1 # 1)) 0 =
    Some (100%Q, row) /\ bid_imbalance row = true.
Proof.
  destruct (zero_count_policy
              [ (100%Q, mkOrderflowRow 4 0 2 0 (-4) 4 2);
                ((201 # 2)%Q, mkOrderflowRow 3 0 1 0 (-3) 3 1) ] (3 # 1) (1 # 1)
              0 100%Q (201 # 2)%Q
              (mkOrderflowRow 4 0 2 0 (-4) 4 2) (mkOrderflowRow 3 0 1 0 (-3) 3 1)
              eq_refl eq_refl)
    as [row [Hrow [Hbid _]]].
  exists row. split; [exact Hrow|].
  apply Hbid.
  - unfold Qlt. simpl. lia.
  - simpl. lia.
  - reflexivity.
Defined.

(** C1, on the code.  For a bin [i] with a bin above it, the bid flag is
    set exactly when the bin has enough volume and the float quotient of
    the count of sell trades of the bin by the count of buy trades of the
    bin above exceeds [imbalance_ratio]; the ask flag likewise with the two
    counts swapped.  The columns compared are the counts [bid] and [ask],
    not the amounts, and the quotient is the binary64 one. *)
Theorem diagonal_imbalance_by_count
    (df : Orderflow) (ratio vol : Q) (i : nat) (p p' : Q) (r r' : OrderflowRow) :
  nth_error df i = Some (p, r) ->
  nth_error df (S i) = Some (p', r') ->
  exists row,
    nth_error (trades_orderflow_to_imbalances df ratio vol) i = Some (p, row) /\
    (bid_imbalance row = true <->
       ~ (of_total_volume r < vol)%Q /\
       exceeds (inject_Z (of_bid r)) (inject_Z (of_ask r')) ratio) /\
    (ask_imbalance row = true <->
       ~ (of_total_volume r < vol)%Q /\
       exceeds (inject_Z (of_ask r')) (inject_Z (of_bid r)) ratio).
Proof.
  intros Hi Hnext.
  eexists. split; [apply (imbalances_at df ratio vol i p r Hi)|].
  unfold diagonal_ask. rewrite Hnext. cbn [snd bid_imbalance ask_imbalance].
  unfold float_of_int.
  destruct (Qltb (of_total_volume r) vol) eqn:Ev.
  - apply Qltb_lt in Ev.
    split; (split; [discriminate|intros [H _]; contradiction]).
  - assert (Hv : ~ (of_total_volume r < vol)%Q).
    { intros H. apply Qltb_lt in H. congruence. }
    split; rewrite fgt_fdiv_exceeds; tauto.
Qed.

Lemma diagonal_imbalance_by_count_witness :
  exists row,
    nth_error
      (trades_orderflow_to_imbalances
         [ (100%Q, mkOrderflowRow 9 0 7 0 (-9) 9 7);
           ((201 # 2)%Q, mkOrderflowRow 0 5 0 2 5 5 2) ] (3 # 1) (1 # 1)) 0 =
    Some (100%Q, row) /\ bid_imbalance row = true.
Proof.
  destruct (diagonal_imbalance_by_count
              [ (100%Q, mkOrderflowRow 9 0 7 0 (-9) 9 7);
                ((201 # 2)%Q, mkOrderflowRow 0 5 0 2 5 5 2) ] (3 # 1) (1 # 1)
              0 100%Q (201 # 2)%Q
              (mkOrderflowRow 9 0 7 0 (-9) 9 7) (mkOrderflowRow 0 5 0 2 5 5 2)
              eq_refl eq_refl)
    as [row [Hrow [Hbid _]]].
  exists row. split; [exact Hrow|].
  apply Hbid. split.
  - unfold Qlt. simpl. lia.
  - left. split.
    + unfold Qeq. simpl. lia.
    + vm_compute. reflexivity.
Defined.

(** The quotient is rounded before it is compared: 7 sell trades under 5
    buy trades give the binary64 value of 1.4, which is not above a ratio
    of that same value, although the real quotient 7/5 is; and 1 trade
    under 3 does not exceed the binary64 value of one third. *)
Example rounded_quotient_does_not_exceed :
  (float_1_4 < 7 # 5)%Q /\
  nth_error
    (trades_orderflow_to_imbalances
       [ (100%Q, mkOrderflowRow 9 0 7 0 (-9) 9 7);
         ((201 # 2)%Q, mkOrderflowRow 0 5 0 5 5 5 5) ] float_1_4 (1 # 1)) 0 =
    Some (100%Q, mkImbalanceRow false false) /\
  nth_error
    (trades_orderflow_to_imbalances
       [ (100%Q, mkOrderflowRow 9 0 1 0 (-9) 9 1);
         ((201 # 2)%Q, mkOrderflowRow 0 5 0 3 5 5 3) ]
       (6004799503160661 # 18014398509481984) (1 # 1)) 0 =
    Some (100%Q, mkImbalanceRow false true).
Proof.
  split; [reflexivity|]. split; vm_compute; reflexivity.
Qed.

(** C1, as the specification words it.  On the profile of a sell of 10 at
    100.0 and a buy of 1 at 100.5, with ratio 3 and no volume threshold,
    the amounts give 10 / 1 > 3 at the lower bin, yet the detector leaves
    its bid flag false: it divides the counts, 1 / 1. *)
Lemma flags_do_not_follow_amounts :
  ~ flags_by_amount
      (trades_to_volumeprofile_with_total_delta_bid_ask sell_under_buy (1 # 2))
      (3 # 1) (0 # 1) 0.
Proof.
  intros H.
  specialize (H 100%Q (mkOrderflowRow 10 0 1 0 (-10) 10 1)
                (201 # 2)%Q (mkOrderflowRow 0 1 0 1 1 1 1)
                (mkImbalanceRow false false) eq_refl eq_refl eq_refl).
  destruct H as [[_ Hbid] _].
  assert (Habs : false = true).
  { apply Hbid. split.
    - unfold Qlt. simpl. lia.
    - left. split.
      + unfold Qeq. simpl. lia.
      + vm_compute. reflexivity. }
  discriminate.
Qed.

(** ** The concrete interval *)

(** C5.  The three trades (100.0, buy, 2), (100.0, sell, 1), (100.5, buy, 5)
    with scale 0.5 give exactly the bins 100.0 and 100.5 with the stated
    amounts, deltas, volumes and trade counts, and populating the candle of
    their interval writes this profile and the totals bid 1, ask 7, delta 6
    and 3 trades. *)
Theorem three_trades_scenario :
  trades_to_volumeprofile_with_total_delta_bid_ask three_trades (1 # 2) =
    three_trades_profile /\
  forall mode,
    option_map (fun c => (orderflow (added c), bid_volume (added c),
                          ask_volume (added c), delta (added c),
                          total_trades (added c)))
      (nth_error
         (dataframe
            (fst (populate_dataframe_with_trades minute_freq minute_floor minute_next
                    (plain_config mode 10) (Some three_trades)
                    (mkStore [plain_candle ten_o_clock] [] []))))
         0) =
    Some (Some three_trades_profile, Some (1 # 1)%Q, Some (7 # 1)%Q, Some (6 # 1)%Q, Some 3).
Proof.
  split; [reflexivity|].
  intros [[| | |]|]; reflexivity.
Qed.

(** ** The stacked-imbalance scan *)

Lemma shift_down_from_cons {A : Type} (prev : option A) (x : A) (t : list A) :
  shift_down_from prev (x :: t) = prev :: shift_down_from (Some x) t.
Proof. reflexivity. Qed.

Lemma stacked_from_cons (prev : option Z) (acc : Z) (seen : list Z) (x : Z) (t : list Z) :
  stacked_from prev acc seen (x :: t) =
  let g := acc + (if ne_shifted x prev then 1 else 0) in
  x * (Z.of_nat (count_occ Z.eq_dec seen g) + 1) :: stacked_from (Some x) g (g :: seen) t.
Proof. reflexivity. Qed.

Lemma count_occ_above (seen : list Z) (acc : Z) :
  (forall g, In g seen -> g <= acc) ->
  count_occ Z.eq_dec seen (acc + 1) = O.
Proof.
  intros H. apply count_occ_not_In. intros Hin. apply H in Hin. lia.
Qed.

Lemma cons_eq {A : Type} (a b : A) (xs ys : list A) :
  a = b -> xs = ys -> a :: xs = b :: ys.
Proof. intros -> ->. reflexivity. Qed.

Lemma count_occ_head (seen : list Z) (g : Z) :
  count_occ Z.eq_dec (g :: seen) g = S (count_occ Z.eq_dec seen g).
Proof.
  cbn [count_occ]. destruct (Z.eq_dec g g); [reflexivity|contradiction].
Qed.

Lemma stacked_from_run_lengths (bs : list bool) :
  forall prev acc seen c,
    pass_invariant prev acc seen c ->
    stacked_from prev acc seen (map int_of_bool bs) =
    map Z.of_nat (run_lengths_from c bs).
Proof.
  induction bs as [|b t IH]; intros prev acc seen c [Hle Hprev]; [reflexivity|].
  cbn [map]. rewrite stacked_from_cons. cbn zeta. cbn [run_lengths_from map].
  assert (Hup : forall g, In g (acc + 1 :: seen) -> g <= acc + 1).
  { intros g [<-|Hg]; [lia|]. apply Hle in Hg. lia. }
  assert (Hsame : forall g, In g (acc :: seen) -> g <= acc).
  { intros g [<-|Hg]; [lia|]. apply Hle. exact Hg. }
  assert (Hnew : count_occ Z.eq_dec (acc + 1 :: seen) (acc + 1) = 1%nat).
  { rewrite count_occ_head, (count_occ_above _ _ Hle). reflexivity. }
  destruct prev as [p|].
  - destruct Hprev as [pb [-> Hc]].
    destruct b, pb; cbn [int_of_bool ne_shifted Z.eqb negb Pos.eqb];
      rewrite ?Z.add_0_r.
    + (* the run goes on *)
      apply cons_eq; [rewrite Hc; lia|].
      apply IH. split; [exact Hsame|].
      exists true. split; [reflexivity|].
      rewrite count_occ_head, Hc. reflexivity.
    + (* a run starts *)
      subst c. apply cons_eq; [rewrite (count_occ_above _ _ Hle); reflexivity|].
      apply IH. split; [exact Hup|].
      exists true. split; [reflexivity|exact Hnew].
    + (* a run breaks *)
      apply cons_eq; [reflexivity|].
      apply IH. split; [exact Hup|].
      exists false. split; reflexivity.
    + apply cons_eq; [reflexivity|].
      apply IH. split; [exact Hsame|].
      exists false. split; reflexivity.
  - subst c. cbn [ne_shifted].
    destruct b; cbn [int_of_bool].
    + apply cons_eq; [rewrite (count_occ_above _ _ Hle); reflexivity|].
      apply IH. split; [exact Hup|].
      exists true. split; [reflexivity|exact Hnew].
    + apply cons_eq; [reflexivity|].
      apply IH. split; [exact Hup|].
      exists false. split; reflexivity.
Qed.

Lemma stacked_series_run_lengths (bs : list bool) :
  stacked_series (map int_of_bool bs) = map Z.of_nat (run_lengths_from O bs).
Proof.
  apply (stacked_from_run_lengths bs None 0 [] O).
  split; [intros g []|reflexivity].
Qed.

Lemma leading_trues_repeat (c : nat) : leading_trues (repeat true c) = c.
Proof. induction c; simpl; congruence. Qed.

Lemma leading_trues_break (xs ys : list bool) :
  leading_trues (xs ++ false :: ys) = leading_trues xs.
Proof.
  induction xs as [|[|] xs IH]; simpl; congruence.
Qed.

Lemma run_lengths_from_nth (bs : list bool) :
  forall c i,
    (i < length bs)%nat ->
    nth_error (run_lengths_from c bs) i =
    Some (leading_trues (rev (firstn (S i) bs) ++ repeat true c)).
Proof.
  induction bs as [|b t IH]; intros c i Hi; [simpl in Hi; lia|].
  destruct i as [|i].
  - destruct b; simpl; [rewrite leading_trues_repeat|]; reflexivity.
  - cbn [run_lengths_from nth_error].
    rewrite IH by (simpl in Hi; lia).
    f_equal.
    change (firstn (S (S i)) (b :: t)) with (b :: firstn (S i) t).
    cbn [rev]. rewrite <- app_assoc. cbn [app].
    destruct b.
    + reflexivity.
    + rewrite leading_trues_break. cbn [repeat]. rewrite app_nil_r. reflexivity.
Qed.

Lemma run_lengths_nth (bs : list bool) (i : nat) :
  (i < length bs)%nat ->
  nth_error (run_lengths_from O bs) i = Some (run_ending_at bs i).
Proof.
  intros Hi. rewrite run_lengths_from_nth by exact Hi.
  cbn [repeat]. rewrite app_nil_r. reflexivity.
Qed.

Lemma run_lengths_from_length (bs : list bool) :
  forall c, length (run_lengths_from c bs) = length bs.
Proof.
  induction bs as [|b t IH]; intros c; simpl; [reflexivity|].
  rewrite IH. reflexivity.
Qed.

(** The positions a mask selects: exactly the [true] ones, in ascending
    order. *)
Lemma mask_index_from_In (mask : list bool) :
  forall s j,
    In j (Series.mask_index_from s mask) <->
    exists k, j = (s + k)%nat /\ nth_error mask k = Some true.
Proof.
  induction mask as [|b t IH]; intros s j.
  - simpl. split; [intros []|]. intros [[|k] [_ H]]; discriminate.
  - assert (Hstep :
      In j (Series.mask_index_from (S s) t) <->
      exists k, j = (s + S k)%nat /\ nth_error (b :: t) (S k) = Some true).
    { rewrite IH. split; intros [k [Hj Hk]]; exists k; split; auto; lia. }
    destruct b; cbn [Series.mask_index_from].
    + split.
      * intros [<-|Hin].
        -- exists O. split; [lia|reflexivity].
        -- apply Hstep in Hin. destruct Hin as [k H]. exists (S k). exact H.
      * intros [[|k] [Hj Hk]].
        -- left. lia.
        -- right. apply Hstep. exists k. split; assumption.
    + rewrite Hstep. split.
      * intros [k H]. exists (S k). exact H.
      * intros [[|k] [Hj Hk]]; [discriminate|]. exists k. split; assumption.
Qed.

Lemma mask_index_from_lower (mask : list bool) :
  forall s j, In j (Series.mask_index_from s mask) -> (s <= j)%nat.
Proof.
  intros s j Hin. apply mask_index_from_In in Hin.
  destruct Hin as [k [-> _]]. lia.
Qed.

Lemma mask_index_from_head (mask : list bool) :
  forall s j rest,
    Series.mask_index_from s mask = j :: rest ->
    forall j', In j' (Series.mask_index_from s mask) -> (j <= j')%nat.
Proof.
  induction mask as [|b t IH]; intros s j rest Heq j' Hin; [discriminate|].
  cbn [Series.mask_index_from] in Heq, Hin.
  destruct b.
  - injection Heq as <- _.
    destruct Hin as [<-|Hin]; [lia|].
    apply mask_index_from_lower in Hin. lia.
  - eapply IH; eassumption.
Qed.

Lemma last_In {A : Type} (xs : list A) (d : A) : xs <> [] -> In (last xs d) xs.
Proof.
  intros Hne. destruct (exists_last Hne) as [l' [a ->]].
  rewrite last_last. apply in_or_app. right. left. reflexivity.
Qed.

Lemma mask_index_from_last (mask : list bool) :
  forall s d j',
    In j' (Series.mask_index_from s mask) ->
    (j' <= last (Series.mask_index_from s mask) d)%nat.
Proof.
  induction mask as [|b t IH]; intros s d j' Hin; [destruct Hin|].
  cbn [Series.mask_index_from] in *.
  destruct b.
  - destruct (Series.mask_index_from (S s) t) as [|x xs] eqn:E.
    + destruct Hin as [<-|[]]. simpl. lia.
    + change (last (s :: x :: xs) d) with (last (x :: xs) d).
      destruct Hin as [<-|Hin].
      * assert (Hl : In (last (x :: xs) d) (Series.mask_index_from (S s) t)).
        { rewrite E. apply last_In. discriminate. }
        apply mask_index_from_lower in Hl. lia.
      * rewrite <- E. apply IH. rewrite E. exact Hin.
  - apply IH. exact Hin.
Qed.

Lemma hd_rev_last {A : Type} (xs : list A) (d : A) : hd d (rev xs) = last xs d.
Proof.
  destruct xs as [|x t] using rev_ind; [reflexivity|].
  rewrite rev_app_distr, last_last. reflexivity.
Qed.

Lemma scan_mask_qualifies (bs : list bool) (range : Z) (i : nat) :
  nth_error (scan_mask bs range) i = Some true <-> qualifies bs range i.
Proof.
  unfold scan_mask, qualifies.
  rewrite stacked_series_run_lengths, !nth_error_map.
  destruct (Nat.lt_ge_cases i (length bs)) as [Hi|Hi].
  - rewrite (run_lengths_nth bs i Hi). cbn [option_map].
    split.
    + intros H. injection H as H. apply Z.leb_le in H. split; assumption.
    + intros [_ H]. apply Z.leb_le in H. rewrite H. reflexivity.
  - assert (Hnone : nth_error (run_lengths_from O bs) i = None).
    { apply nth_error_None. rewrite run_lengths_from_length. exact Hi. }
    rewrite Hnone. cbn [option_map].
    split; [discriminate|]. intros [H _]. lia.
Qed.

Lemma mask_index_qualifies (bs : list bool) (range : Z) (i : nat) :
  In i (Series.mask_index (scan_mask bs range)) <-> qualifies bs range i.
Proof.
  unfold Series.mask_index. rewrite mask_index_from_In, <- scan_mask_qualifies.
  split.
  - intros [k [-> Hk]]. exact Hk.
  - intros H. exists i. split; [reflexivity|exact H].
Qed.

Lemma stacked_imbalance_unfold
    (df : Imbalances) (label : Label) (range : Z) (should_reverse : bool) :
  stacked_imbalance df label range should_reverse =
  let idxs :=
    Series.mask_index
      (scan_mask (map (fun r => imbalance_column label (snd r)) df) range) in
  match idxs with
  | [] => None
  | i0 :: _ => price_at df (if should_reverse then last idxs i0 else i0)
  end.
Proof.
  unfold stacked_imbalance, scan_mask, price_at.
  rewrite !map_map. cbn [fst snd].
  change (fun x : Q * ImbalanceRow => if imbalance_column label (snd x) then 1 else 0)
    with (fun x : Q * ImbalanceRow => int_of_bool (imbalance_column label (snd x))).
  cbv zeta.
  destruct (Series.mask_index _) as [|i0 rest] eqn:E; [reflexivity|].
  rewrite hd_rev_last, nth_error_map. reflexivity.
Qed.

(** The scan in either direction: the price of the least qualifying
    position, or of the greatest when reversed, and NaN when none
    qualifies. *)
Lemma stacked_imbalance_scan
    (df : Imbalances) (label : Label) (range : Z) (should_reverse : bool) :
  let bs := map (fun r => imbalance_column label (snd r)) df in
  match stacked_imbalance df label range should_reverse with
  | Some p =>
      exists i,
        price_at df i = Some p /\
        qualifies bs range i /\
        forall j, qualifies bs range j ->
                  if should_reverse then (j <= i)%nat else (i <= j)%nat
  | None => forall i, ~ qualifies bs range i
  end.
Proof.
  intros bs. rewrite stacked_imbalance_unfold. fold bs. cbv zeta.
  destruct (Series.mask_index (scan_mask bs range)) as [|i0 rest] eqn:E.
  - intros i Hq. apply mask_index_qualifies in Hq. rewrite E in Hq. destruct Hq.
  - set (idx := if should_reverse then last (i0 :: rest) i0 else i0).
    assert (Hin : In idx (Series.mask_index (scan_mask bs range))).
    { rewrite E. subst idx. destruct should_reverse.
      - apply last_In. discriminate.
      - left. reflexivity. }
    assert (Hq : qualifies bs range idx) by (apply mask_index_qualifies; exact Hin).
    assert (Hext : forall j, qualifies bs range j ->
                     if should_reverse then (j <= idx)%nat else (idx <= j)%nat).
    { intros j Hj. apply mask_index_qualifies in Hj. subst idx.
      destruct should_reverse.
      - rewrite <- E. apply mask_index_from_last. exact Hj.
      - eapply mask_index_from_head; [exact E|exact Hj]. }
    destruct (price_at df idx) as [p|] eqn:Ep.
    + exists idx. split; [exact Ep|]. split; [exact Hq|exact Hext].
    + exfalso. unfold price_at in Ep.
      destruct (nth_error df idx) eqn:En; [discriminate|].
      apply nth_error_None in En.
      destruct Hq as [Hlt _]. subst bs. rewrite length_map in Hlt. lia.
Qed.

(** C2.  With a position qualifying when the run of consecutive [true]
    values ending at it has at least [range] values: the bid scan returns
    the price of the first qualifying position in ascending order, the ask
    scan the price of the last one, and each returns NaN when no position
    qualifies. *)
Theorem stacked_scan_first_and_last (df : Imbalances) (range : Z) :
  let bids := map (fun r => bid_imbalance (snd r)) df in
  let asks := map (fun r => ask_imbalance (snd r)) df in
  match stacked_imbalance_bid df range with
  | Some p =>
      exists i,
        price_at df i = Some p /\ qualifies bids range i /\
        forall j, qualifies bids range j -> (i <= j)%nat
  | None => forall i, ~ qualifies bids range i
  end /\
  match stacked_imbalance_ask df range with
  | Some p =>
      exists i,
        price_at df i = Some p /\ qualifies asks range i /\
        forall j, qualifies asks range j -> (j <= i)%nat
  | None => forall i, ~ qualifies asks range i
  end.
Proof.
  intros bids asks. split.
  - exact (stacked_imbalance_scan df bid range false).
  - exact (stacked_imbalance_scan df ask range true).
Qed.

(** ** One group of the loop *)

Lemma update_at_other (f : Candle -> Candle) (df : list Candle) :
  forall index i, index <> i -> nth_error (update_at index f df) i = nth_error df i.
Proof.
  induction df as [|c t IH]; intros [|index] [|i] Hne; simpl; auto; try congruence.
Qed.

Lemma update_at_length (f : Candle -> Candle) (df : list Candle) :
  forall index, length (update_at index f df) = length df.
Proof.
  induction df as [|c t IH]; intros [|index]; simpl; auto.
Qed.

Lemma first_true_hit (mask : list bool) :
  existsb (fun b => b) mask = true ->
  nth_error mask (first_true mask) = Some true.
Proof.
  intros Hex. apply existsb_exists in Hex. destruct Hex as [b [Hin ->]].
  apply In_nth_error in Hin. destruct Hin as [k Hk].
  unfold first_true.
  destruct (Series.mask_index mask) as [|j rest] eqn:E.
  - assert (Hin : In k (Series.mask_index mask)).
    { apply mask_index_from_In. exists k. split; [reflexivity|exact Hk]. }
    rewrite E in Hin. destruct Hin.
  - assert (Hin : In j (Series.mask_index mask)) by (rewrite E; left; reflexivity).
    apply mask_index_from_In in Hin. destruct Hin as [k' [-> Hk']]. exact Hk'.
Qed.

Lemma first_true_elsewhere (df : list Candle) (cs : Datetime) (i : nat) (c : Candle) :
  nth_error df i = Some c ->
  date c <> cs ->
  existsb (fun b => b) (map (fun c0 => cs =? date c0) df) = true ->
  first_true (map (fun c0 => cs =? date c0) df) <> i.
Proof.
  intros Hi Hne Hex Heq. apply first_true_hit in Hex.
  rewrite Heq, nth_error_map, Hi in Hex. cbn [option_map] in Hex.
  injection Hex as Hex. apply Z.eqb_eq in Hex. congruence.
Qed.

Lemma cache_hit_elsewhere (df : list Candle) (cs : Datetime) (i : nat) (c row : Candle) :
  nth_error df i = Some c ->
  date c <> cs ->
  nth_error
    (Series.map2 (fun (b : bool) c1 => if b then row else c1)
       (map (fun c0 => cs =? date c0) df) df) i = Some c.
Proof.
  intros Hi Hne. rewrite map2_nth_error, nth_error_map, Hi. cbn [option_map].
  destruct (cs =? date c) eqn:E; [|reflexivity].
  apply Z.eqb_eq in E. congruence.
Qed.

(** A group leaves every candle of another start as it is, whatever
    happens to the group. *)
Lemma process_group_frame
    (timeframe_to_next_date : string -> Datetime -> Exception + Datetime)
    (config : Config) (groups : list (Datetime * list CandleTrade))
    (group : Datetime * list CandleTrade) (s : Store) (i : nat) (c : Candle) :
  nth_error (dataframe s) i = Some c ->
  date c <> fst group ->
  nth_error
    (dataframe (fst (process_group timeframe_to_next_date config groups group s))) i =
  Some c.
Proof.
  intros Hi Hne. destruct s as [df cache lg]. destruct group as [cs g].
  cbn [dataframe fst] in *.
  run_cases;
    try exact Hi;
    try (apply cache_hit_elsewhere; assumption);
    rewrite !update_at_other
      by (apply (first_true_elsewhere df cs i c); assumption);
    exact Hi.
Qed.

Lemma set_absent {V : Type} (k : CacheKey) (v : V) (d : list (CacheKey * V)) :
  OrderedDict.get k d = None -> OrderedDict.set k v d = d ++ [(k, v)].
Proof.
  induction d as [|[k' v'] rest IH]; intros Hget; [reflexivity|].
  simpl in *. destruct (key_eqb k k'); [discriminate|].
  rewrite IH by exact Hget. reflexivity.
Qed.

Lemma process_group_cache
    (timeframe_to_next_date : string -> Datetime -> Exception + Datetime)
    (config : Config) (groups : list (Datetime * list CandleTrade))
    (group : Datetime * list CandleTrade) (s : Store) :
  cache_step config (cached_grouped_trades s)
    (cached_grouped_trades
       (fst (process_group timeframe_to_next_date config groups group s))).
Proof.
  destruct s as [df cache lg]. destruct group as [cs g].
  cbn [cached_grouped_trades fst].
  run_cases; try (left; reflexivity).
  all: right;
    match goal with
    | H : OrderedDict.get ?k _ = None |- _ =>
        exists k; eexists; split; [exact H|];
        cbv zeta; rewrite (set_absent _ _ _ H) in *
    end;
    match goal with
    | H : (_ && _)%bool = _ |- _ => rewrite H
    end;
    reflexivity.
Qed.

(** C6.  A group whose candle start is the date of no row is skipped: the
    table and the cache stay as they are, only a debug record is logged,
    and nothing is raised. *)
Theorem group_without_candle_is_skipped
    (timeframe_to_next_date : string -> Datetime -> Exception + Datetime)
    (config : Config) (groups : list (Datetime * list CandleTrade))
    (group : Datetime * list CandleTrade) (s : Store) :
  (forall c, In c (dataframe s) -> date c <> fst group) ->
  process_group timeframe_to_next_date config groups group s =
  (logged (debug_no_candles (fst group)) s, inr tt).
Proof.
  intros Hno.
  assert (Hex : existsb (fun b => b)
                  (map (fun c => fst group =? date c) (dataframe s)) = false).
  { destruct (existsb _ _) eqn:E; [|reflexivity].
    apply existsb_exists in E. destruct E as [b [Hin ->]].
    apply in_map_iff in Hin. destruct Hin as [c [Hc Hin]].
    apply Z.eqb_eq in Hc. apply Hno in Hin. congruence. }
  unfold process_group, bind, get_dataframe. cbv zeta. rewrite Hex.
  reflexivity.
Qed.

Lemma group_without_candle_is_skipped_witness :
  process_group minute_next (plain_config (Some LIVE) 10)
    [(ten_o_clock, [mkCandleTrade (mkTrade ten_o_clock 100 2 "buy")
                      ten_o_clock (ten_o_clock + 60000)])]
    (ten_o_clock, [mkCandleTrade (mkTrade ten_o_clock 100 2 "buy")
                     ten_o_clock (ten_o_clock + 60000)])
    (mkStore [plain_candle (ten_o_clock - 60000)] [] []) =
  (mkStore [plain_candle (ten_o_clock - 60000)] [] [debug_no_candles ten_o_clock],
   inr tt).
Proof.
  apply (group_without_candle_is_skipped minute_next (plain_config (Some LIVE) 10)
           [(ten_o_clock, [mkCandleTrade (mkTrade ten_o_clock 100 2 "buy")
                             ten_o_clock (ten_o_clock + 60000)])]
           (ten_o_clock, [mkCandleTrade (mkTrade ten_o_clock 100 2 "buy")
                            ten_o_clock (ten_o_clock + 60000)])
           (mkStore [plain_candle (ten_o_clock - 60000)] [] [])).
  intros c [<-|[]]. discriminate.
Defined.

(** ** The loop and the whole call *)

Lemma for_each_step {A : Type} (f : A -> M unit) (x : A) (t : list A) (s : Store) :
  for_each f (x :: t) s =
  match f x s with
  | (s', inr _) => for_each f t s'
  | (s', inl e) => (s', inl e)
  end.
Proof. reflexivity. Qed.

Lemma for_each_frame
    (timeframe_to_next_date : string -> Datetime -> Exception + Datetime)
    (config : Config) (all : list (Datetime * list CandleTrade))
    (i : nat) (c : Candle) (gs : list (Datetime * list CandleTrade)) :
  forall s,
    nth_error (dataframe s) i = Some c ->
    (forall g, In g gs -> date c <> fst g) ->
    nth_error
      (dataframe (fst (for_each (process_group timeframe_to_next_date config all) gs s))) i =
    Some c.
Proof.
  induction gs as [|g t IH]; intros s Hi Hno; [exact Hi|].
  rewrite for_each_step.
  pose proof (process_group_frame timeframe_to_next_date config all g s i c Hi
                (Hno g (or_introl eq_refl))) as Hstep.
  destruct (process_group timeframe_to_next_date config all g s) as [s' [e|u]];
    cbn [fst] in *.
  - exact Hstep.
  - apply IH; [exact Hstep|]. intros g' Hg'. apply Hno. right. exact Hg'.
Qed.

Lemma for_each_cache_grows
    (timeframe_to_next_date : string -> Datetime -> Exception + Datetime)
    (config : Config) (all : list (Datetime * list CandleTrade))
    (gs : list (Datetime * list CandleTrade)) :
  live_or_dry_run config = false ->
  forall s,
    exists appended,
      cached_grouped_trades
        (fst (for_each (process_group timeframe_to_next_date config all) gs s)) =
      cached_grouped_trades s ++ appended.
Proof.
  intros Hmode. induction gs as [|g t IH]; intros s.
  - exists []. rewrite app_nil_r. reflexivity.
  - rewrite for_each_step.
    pose proof (process_group_cache timeframe_to_next_date config all g s) as Hstep.
    assert (Hone : exists one,
               cached_grouped_trades
                 (fst (process_group timeframe_to_next_date config all g s)) =
               cached_grouped_trades s ++ one).
    { destruct Hstep as [->|[key [entry [_ ->]]]].
      - exists []. rewrite app_nil_r. reflexivity.
      - cbv zeta. rewrite Hmode. cbn [andb]. eexists. reflexivity. }
    destruct Hone as [one Hone].
    destruct (process_group timeframe_to_next_date config all g s) as [s' [e|u]];
      cbn [fst] in *.
    + exists one. exact Hone.
    + destruct (IH s') as [rest Hrest].
      exists (one ++ rest). rewrite Hrest, Hone, app_assoc. reflexivity.
Qed.

Lemma processing_by_groups
    (timeframe_to_resample_freq : string -> Exception + string)
    (dt_floor : string -> Datetime -> Exception + Datetime)
    (timeframe_to_next_date : string -> Datetime -> Exception + Datetime)
    (config : Config) (trades_df : list Trade) (s : Store) :
  processing timeframe_to_resample_freq dt_floor timeframe_to_next_date
    config trades_df s =
  match trade_groups timeframe_to_resample_freq dt_floor timeframe_to_next_date
          config trades_df (dataframe s) with
  | inl e => (s, inl e)
  | inr groups =>
      match for_each (process_group timeframe_to_next_date config groups) groups s with
      | (s', inr _) => (logged debug_elapsed s', inr tt)
      | (s', inl e) => (s', inl e)
      end
  end.
Proof.
  unfold processing, trade_groups, bind, lift, get_dataframe, ret, raise.
  destruct (_calculate_ohlcv_candle_start_and_end _ _ _ _ _) as [e|trades_c];
    [reflexivity|].
  destruct (iat0 _) as [e|start_date]; [reflexivity|].
  destruct (for_each _ _ s) as [s' [e|u]]; reflexivity.
Qed.

(** The call, by the outcome of the statements inside [try]. *)
Lemma populate_by_processing
    (timeframe_to_resample_freq : string -> Exception + string)
    (dt_floor : string -> Datetime -> Exception + Datetime)
    (timeframe_to_next_date : string -> Datetime -> Exception + Datetime)
    (config : Config) (t : Trade) (ts : list Trade) (s : Store) :
  populate_dataframe_with_trades timeframe_to_resample_freq dt_floor
    timeframe_to_next_date config (Some (t :: ts)) s =
  match processing timeframe_to_resample_freq dt_floor timeframe_to_next_date
          config (t :: ts) (initialised s) with
  | (s1, inl e) => (logged (exception_logged e) s1, inl (DependencyException e))
  | (s1, inr _) => (s1, inr (dataframe s1, cached_grouped_trades s1))
  end.
Proof.
  unfold populate_dataframe_with_trades, _init_dataframe_with_trades_columns.
  unfold bind at 1 2. unfold get_dataframe at 1. unfold put_dataframe at 1.
  fold (initialised s).
  unfold bind at 1. unfold try_except.
  destruct (processing _ _ _ _ _ _) as [s1 [e|u]]; reflexivity.
Qed.

Lemma populate_without_trades
    (timeframe_to_resample_freq : string -> Exception + string)
    (dt_floor : string -> Datetime -> Exception + Datetime)
    (timeframe_to_next_date : string -> Datetime -> Exception + Datetime)
    (config : Config) (trades_df : option (list Trade)) (s : Store) :
  trades_df = None \/ trades_df = Some [] ->
  populate_dataframe_with_trades timeframe_to_resample_freq dt_floor
    timeframe_to_next_date config trades_df s =
  (initialised s, inr (map init_row (dataframe s), cached_grouped_trades s)).
Proof.
  intros [-> | ->]; reflexivity.
Qed.

(** C7.  Without trades (no trade table, or one without rows) the call
    returns the table with every added column of every row unset and the
    cache as it was; and in every call a row whose date is the candle start
    of no trade group ends with all its added columns unset, its date and
    OHLCV columns as they were. *)
Theorem rows_without_trades_stay_unset
    (timeframe_to_resample_freq : string -> Exception + string)
    (dt_floor : string -> Datetime -> Exception + Datetime)
    (timeframe_to_next_date : string -> Datetime -> Exception + Datetime)
    (config : Config) (s : Store) :
  let populate :=
    populate_dataframe_with_trades timeframe_to_resample_freq dt_floor
      timeframe_to_next_date config in
  populate None s =
    (initialised s, inr (map init_row (dataframe s), cached_grouped_trades s)) /\
  populate (Some []) s =
    (initialised s, inr (map init_row (dataframe s), cached_grouped_trades s)) /\
  (forall c, In c (dataframe (initialised s)) -> added c = unset) /\
  forall trades_df i c,
    nth_error (dataframe s) i = Some c ->
    (forall groups,
       trade_groups timeframe_to_resample_freq dt_floor timeframe_to_next_date
         config trades_df (dataframe (initialised s)) = inr groups ->
       ~ In (date c) (map fst groups)) ->
    nth_error (dataframe (fst (populate (Some trades_df) s))) i =
    Some (mkCandle (date c) (ohlcv c) unset).
Proof.
  intros populate. subst populate.
  split; [apply populate_without_trades; left; reflexivity|].
  split; [apply populate_without_trades; right; reflexivity|].
  split.
  { intros c Hin. cbn [initialised dataframe] in Hin.
    apply in_map_iff in Hin. destruct Hin as [c0 [<- _]]. reflexivity. }
  intros trades_df i c Hi Hno.
  assert (Hinit : nth_error (dataframe (initialised s)) i = Some (init_row c)).
  { cbn [initialised dataframe]. rewrite nth_error_map, Hi. reflexivity. }
  destruct trades_df as [|t ts].
  - rewrite populate_without_trades by (right; reflexivity). exact Hinit.
  - rewrite populate_by_processing, processing_by_groups.
    destruct (trade_groups _ _ _ _ _ _) as [e|groups] eqn:Eg.
    + exact Hinit.
    + pose proof (for_each_frame timeframe_to_next_date config groups i (init_row c)
                    groups (initialised s) Hinit) as Hloop.
      assert (Hkeys : forall g, In g groups -> date (init_row c) <> fst g).
      { intros g Hg Heq. apply (Hno groups eq_refl).
        cbn [init_row date] in Heq. rewrite Heq. apply in_map. exact Hg. }
      specialize (Hloop Hkeys).
      destruct (for_each _ groups (initialised s)) as [s' [e|u]]; exact Hloop.
Qed.

Lemma rows_without_trades_stay_unset_witness :
  nth_error
    (dataframe
       (fst (populate_dataframe_with_trades minute_freq minute_floor minute_next
               (plain_config (Some DRY_RUN) 10) (Some three_trades)
               (mkStore [ mkCandle (ten_o_clock - 60000) (1, 2, 3, 4, 5)%Q
                            (mkAdded None None None None None None None
                               (Some 0%Q) (Some 0%Q) (Some 0%Q) (Some 0));
                          plain_candle ten_o_clock ] [] []))))
    0 =
  Some (mkCandle (ten_o_clock - 60000) (1, 2, 3, 4, 5)%Q unset).
Proof.
  refine (proj2 (proj2 (proj2
            (rows_without_trades_stay_unset minute_freq minute_floor minute_next
               (plain_config (Some DRY_RUN) 10)
               (mkStore [ mkCandle (ten_o_clock - 60000) (1, 2, 3, 4, 5)%Q
                            (mkAdded None None None None None None None
                               (Some 0%Q) (Some 0%Q) (Some 0%Q) (Some 0));
                          plain_candle ten_o_clock ] [] []))))
            three_trades 0%nat _ eq_refl _).
  intros groups Hg. vm_compute in Hg. injection Hg as <-.
  cbn [map fst date]. intros [H|[]]. vm_compute in H. discriminate.
Defined.

Lemma process_group_cache_hit
    (timeframe_to_next_date : string -> Datetime -> Exception + Datetime)
    (config : Config) (groups : list (Datetime * list CandleTrade))
    (group : Datetime * list CandleTrade) (s : Store)
    (candle_next : Datetime) (entry : list Candle) :
  timeframe_to_next_date (timeframe config) (fst group) = inr candle_next ->
  OrderedDict.get (fst group, candle_next) (cached_grouped_trades s) = Some entry ->
  cached_grouped_trades
    (fst (process_group timeframe_to_next_date config groups group s)) =
  cached_grouped_trades s.
Proof.
  intros Hnext Hget. destruct s as [df cache lg]. destruct group as [cs g].
  cbn [cached_grouped_trades fst] in *.
  run_cases; try reflexivity; congruence.
Qed.

Lemma running_deltas_nonempty (g : list CandleTrade) :
  g <> [] ->
  exists q qs,
    qcumsum_from 0%Q
      (Series.map2 qsub
         (map (fun t => if is_buy t then t_amount t else 0%Q) (map trade g))
         (map (fun t => if is_sell t then t_amount t else 0%Q) (map trade g))) = q :: qs.
Proof.
  destruct g as [|ct g']; [contradiction|]. intros _.
  cbn [map Series.map2 qcumsum_from]. eexists. eexists. reflexivity.
Qed.

(** A cache miss on a group that has trades inserts the rows of the date
    at the end of the cache and then, in live or dry-run mode with the
    size exceeded, pops the head. *)
Lemma process_group_inserts
    (timeframe_to_next_date : string -> Datetime -> Exception + Datetime)
    (config : Config) (groups : list (Datetime * list CandleTrade))
    (k : Datetime) (g : list CandleTrade) (s : Store) (candle_next : Datetime) :
  timeframe_to_next_date (timeframe config) k = inr candle_next ->
  existsb (fun b => b) (map (fun c => k =? date c) (dataframe s)) = true ->
  OrderedDict.get (k, candle_next) (cached_grouped_trades s) = None ->
  g <> [] ->
  cached_grouped_trades
    (fst (process_group timeframe_to_next_date config groups (k, g) s)) =
  cache_after_insert config (cached_grouped_trades s) (k, candle_next)
    (loc (map (fun c => k =? date c) (dataframe s))
       (dataframe (fst (process_group timeframe_to_next_date config groups (k, g) s)))).
Proof.
  intros Hnext Hex Hget Hg. destruct s as [df cache lg].
  cbn [dataframe cached_grouped_trades] in *.
  destruct (running_deltas_nonempty g Hg) as [q [qs Hq]].
  run_cases; try congruence;
    try (match goal with
         | H : array_min _ = inl _ |- _ => rewrite Hq in H; discriminate
         | H : array_max _ = inl _ |- _ => rewrite Hq in H; discriminate
         end).
  all: assert (d = candle_next) by congruence; subst d.
  all: unfold cache_after_insert; cbv zeta.
  all: rewrite (set_absent _ _ _ Hget) in *.
  all: match goal with
       | H : (_ && _)%bool = _ |- _ => rewrite H
       end; reflexivity.
Qed.

(** C3.  The cache through one group of the loop and through a call.  A
    group that is computed (a row of its date, no entry under its key, at
    least one trade) inserts its entry at the end of the cache; right after
    the insertion the head of the cache, its oldest insertion, is removed
    exactly when the run mode is live or dry-run and the size then exceeds
    [cache_size].  A cache hit leaves the cache and its order untouched.
    No group does anything else to the cache, and in any other run mode a
    call only appends to it. *)
Theorem cache_eviction_policy
    (timeframe_to_resample_freq : string -> Exception + string)
    (dt_floor : string -> Datetime -> Exception + Datetime)
    (timeframe_to_next_date : string -> Datetime -> Exception + Datetime)
    (config : Config) :
  (forall groups k g s candle_next,
     timeframe_to_next_date (timeframe config) k = inr candle_next ->
     existsb (fun b => b) (map (fun c => k =? date c) (dataframe s)) = true ->
     OrderedDict.get (k, candle_next) (cached_grouped_trades s) = None ->
     g <> [] ->
     let after := fst (process_group timeframe_to_next_date config groups (k, g) s) in
     let inserted :=
       cached_grouped_trades s ++
       [((k, candle_next),
         loc (map (fun c => k =? date c) (dataframe s)) (dataframe after))] in
     cached_grouped_trades after =
     if live_or_dry_run config &&
        (cache_size (config_orderflow config) <? Z.of_nat (length inserted))
     then tl inserted else inserted) /\
  (forall groups group s candle_next entry,
     timeframe_to_next_date (timeframe config) (fst group) = inr candle_next ->
     OrderedDict.get (fst group, candle_next) (cached_grouped_trades s) = Some entry ->
     cached_grouped_trades
       (fst (process_group timeframe_to_next_date config groups group s)) =
     cached_grouped_trades s) /\
  (forall groups group s,
     cache_step config (cached_grouped_trades s)
       (cached_grouped_trades
          (fst (process_group timeframe_to_next_date config groups group s)))) /\
  (live_or_dry_run config = false ->
   forall trades_df s,
   exists appended,
     cached_grouped_trades
       (fst (populate_dataframe_with_trades timeframe_to_resample_freq dt_floor
               timeframe_to_next_date config trades_df s)) =
     cached_grouped_trades s ++ appended).
Proof.
  split; [|split; [|split]].
  - intros groups k g s candle_next. apply process_group_inserts.
  - intros groups group s candle_next entry.
    apply process_group_cache_hit.
  - intros groups group s. apply process_group_cache.
  - intros Hmode trades_df s.
    destruct trades_df as [[|t ts]|];
      try (exists []; rewrite app_nil_r; reflexivity).
    rewrite populate_by_processing, processing_by_groups.
    destruct (trade_groups _ _ _ _ _ _) as [e|groups].
    + exists []. rewrite app_nil_r. reflexivity.
    + destruct (for_each_cache_grows timeframe_to_next_date config groups groups
                  Hmode (initialised s)) as [appended Happ].
      exists appended.
      destruct (for_each _ groups (initialised s)) as [s' [e|u]]; exact Happ.
Qed.

(** A live call with a cache size of 1 on a cache that holds one older
    entry: the group is computed, its entry inserted and the older entry,
    the head, evicted. *)
Lemma cache_eviction_policy_witness :
  cached_grouped_trades
    (fst (process_group minute_next (plain_config (Some LIVE) 1) []
            (ten_o_clock, [mkCandleTrade (mkTrade ten_o_clock 100 2 "buy")
                             ten_o_clock (ten_o_clock + 60000)])
            (mkStore [plain_candle ten_o_clock] old_cache []))) =
  [((ten_o_clock, ten_o_clock + 60000),
    loc [true]
      (dataframe
         (fst (process_group minute_next (plain_config (Some LIVE) 1) []
                 (ten_o_clock, [mkCandleTrade (mkTrade ten_o_clock 100 2 "buy")
                                  ten_o_clock (ten_o_clock + 60000)])
                 (mkStore [plain_candle ten_o_clock] old_cache [])))))].
Proof.
  apply (proj1
           (cache_eviction_policy minute_freq minute_floor minute_next
              (plain_config (Some LIVE) 1))
           [] ten_o_clock
           [mkCandleTrade (mkTrade ten_o_clock 100 2 "buy")
              ten_o_clock (ten_o_clock + 60000)]
           (mkStore [plain_candle ten_o_clock] old_cache [])
           (ten_o_clock + 60000)).
  - reflexivity.
  - reflexivity.
  - reflexivity.
  - discriminate.
Defined.

(** With a cache size of 1 and one older entry in the cache, a live or
    dry-run call keeps only the entry it inserts; a backtesting call, or
    one without run mode, keeps both, the older one first. *)
Example cache_after_one_insertion :
  map fst (cache_after (Some LIVE)) = [(ten_o_clock, ten_o_clock + 60000)] /\
  map fst (cache_after (Some DRY_RUN)) = [(ten_o_clock, ten_o_clock + 60000)] /\
  map fst (cache_after (Some BACKTEST)) = [old_key; (ten_o_clock, ten_o_clock + 60000)] /\
  map fst (cache_after None) = [old_key; (ten_o_clock, ten_o_clock + 60000)].
Proof. repeat split; reflexivity. Qed.

(** C4.  When a statement inside [try] raises, at whatever step, the call
    logs the exception and raises [DependencyException] with the exception
    as its cause: the call returns no value then.  The store is left as the
    failing statement left it. *)
Theorem processing_failure_is_wrapped
    (timeframe_to_resample_freq : string -> Exception + string)
    (dt_floor : string -> Datetime -> Exception + Datetime)
    (timeframe_to_next_date : string -> Datetime -> Exception + Datetime)
    (config : Config) (t : Trade) (ts : list Trade) (s s1 : Store) (e : Exception) :
  processing timeframe_to_resample_freq dt_floor timeframe_to_next_date
    config (t :: ts) (initialised s) = (s1, inl e) ->
  populate_dataframe_with_trades timeframe_to_resample_freq dt_floor
    timeframe_to_next_date config (Some (t :: ts)) s =
  (logged (exception_logged e) s1, inl (DependencyException e)).
Proof.
  intros Hraise. rewrite populate_by_processing, Hraise. reflexivity.
Qed.

Lemma processing_failure_is_wrapped_witness :
  populate_dataframe_with_trades minute_freq minute_floor minute_next
    (plain_config (Some LIVE) 10) (Some three_trades)
    (mkStore [plain_candle ten_o_clock]
       [((ten_o_clock, ten_o_clock + 60000), [])] []) =
  (mkStore [plain_candle ten_o_clock]
     [((ten_o_clock, ten_o_clock + 60000), [])]
     [warning_unfinished ten_o_clock 3 (ten_o_clock + 60000);
      exception_logged IndexError],
   inl (DependencyException IndexError)).
Proof.
  apply (processing_failure_is_wrapped minute_freq minute_floor minute_next
           (plain_config (Some LIVE) 10)
           (mkTrade (ten_o_clock + 1000) 100 2 "buy")
           [ mkTrade (ten_o_clock + 2000) 100 1 "sell";
             mkTrade (ten_o_clock + 3000) (201 # 2) 5 "buy" ]
           (mkStore [plain_candle ten_o_clock]
              [((ten_o_clock, ten_o_clock + 60000), [])] [])
           (mkStore [plain_candle ten_o_clock]
              [((ten_o_clock, ten_o_clock + 60000), [])]
              [warning_unfinished ten_o_clock 3 (ten_o_clock + 60000)])
           IndexError).
  reflexivity.
Defined.

(** Each step inside [try] can be the one that fails: the resolver of the
    timeframe, the window on a table without rows, a group of the loop
    (here a cache entry that has no row). *)
Example failures_by_step :
  snd (populate_dataframe_with_trades unknown_timeframe minute_floor minute_next
         (plain_config None 10) (Some three_trades)
         (mkStore [plain_candle ten_o_clock] [] [])) =
    inl (DependencyException (ExternalError "unknown timeframe")) /\
  snd (populate_dataframe_with_trades minute_freq minute_floor minute_next
         (plain_config None 10) (Some three_trades) (mkStore [] [] [])) =
    inl (DependencyException IndexError) /\
  snd (populate_dataframe_with_trades minute_freq minute_floor minute_next
         (plain_config None 10) (Some three_trades)
         (mkStore [plain_candle ten_o_clock]
            [((ten_o_clock, ten_o_clock + 60000), [])] [])) =
    inl (DependencyException IndexError).
Proof. repeat split; reflexivity. Qed.

(** A call that has trades either returns the table and the cache of the
    store or raises [DependencyException]; no other exception leaves it. *)
Lemma populate_outcome
    (timeframe_to_resample_freq : string -> Exception + string)
    (dt_floor : string -> Datetime -> Exception + Datetime)
    (timeframe_to_next_date : string -> Datetime -> Exception + Datetime)
    (config : Config) (trades_df : option (list Trade)) (s : Store) :
  match populate_dataframe_with_trades timeframe_to_resample_freq dt_floor
          timeframe_to_next_date config trades_df s with
  | (s', inr v) => v = (dataframe s', cached_grouped_trades s')
  | (s', inl x) =>
      exists e, x = DependencyException e /\
                exists lg, log s' = lg ++ [exception_logged e]
  end.
Proof.
  destruct trades_df as [[|t ts]|]; try reflexivity.
  rewrite populate_by_processing.
  destruct (processing _ _ _ _ _ _) as [s1 [e|u]]; [|reflexivity].
  exists e. split; [reflexivity|]. exists (log s1). reflexivity.
Qed.

(** * Further properties *)

(** ** Grouping *)

Section GroupByFacts.
Context {K V : Type} (cmp : K -> K -> comparison) (key : V -> K).
Hypothesis cmp_refl : forall a, cmp a a = Eq.
Hypothesis cmp_antisym : forall a b, cmp b a = CompOpp (cmp a b).
Hypothesis cmp_lt_trans : forall a b c, cmp a b = Lt -> cmp b c = Lt -> cmp a c = Lt.
Hypothesis cmp_eq_compat : forall a b c, cmp a b = Eq -> cmp a c = cmp b c.

Let key_lt (a b : K) : Prop := cmp a b = Lt.

Lemma group_insert_keys_from (k : K) (v : V) (gs : list (K * list V)) :
  forall k', In k' (map fst (group_insert cmp k v gs)) ->
             k' = k \/ In k' (map fst gs).
Proof.
  induction gs as [|[k1 vs1] rest IH]; intros k'; simpl.
  - intros [<-|[]]. left. reflexivity.
  - destruct (cmp k k1) eqn:E; simpl.
    + intros H. right. exact H.
    + intros [<-|H]; [left; reflexivity|right; exact H].
    + intros [<-|H]; [right; left; reflexivity|].
      apply IH in H. destruct H as [->|H]; [left; reflexivity|right; right; exact H].
Qed.

Lemma group_insert_keys_kept (k : K) (v : V) (gs : list (K * list V)) :
  forall k', In k' (map fst gs) -> In k' (map fst (group_insert cmp k v gs)).
Proof.
  induction gs as [|[k1 vs1] rest IH]; intros k'; simpl; [intros []|].
  destruct (cmp k k1) eqn:E; simpl.
  - intros H. exact H.
  - intros H. right. exact H.
  - intros [<-|H]; [left; reflexivity|right; apply IH; exact H].
Qed.

Lemma group_insert_sorted (k : K) (v : V) (gs : list (K * list V)) :
  StronglySorted key_lt (map fst gs) ->
  StronglySorted key_lt (map fst (group_insert cmp k v gs)).
Proof.
  induction gs as [|[k1 vs1] rest IH]; intros Hs; simpl.
  - constructor; constructor.
  - simpl in Hs. apply StronglySorted_inv in Hs. destruct Hs as [Hrest Hall].
    destruct (cmp k k1) eqn:E; simpl.
    + constructor; assumption.
    + constructor.
      * constructor; assumption.
      * constructor; [exact E|].
        rewrite Forall_forall in *. intros x Hx.
        apply (cmp_lt_trans k k1 x E). apply Hall. exact Hx.
    + constructor; [apply IH; exact Hrest|].
      rewrite Forall_forall in *. intros x Hx.
      apply group_insert_keys_from in Hx. destruct Hx as [->|Hx].
      * unfold key_lt. rewrite cmp_antisym, E. reflexivity.
      * apply Hall. exact Hx.
Qed.

(** Where a group of the result comes from: an old group of another key,
    a new group for a key that had none, or the old group of the key with
    the row appended. *)
Lemma group_insert_In (k : K) (v : V) (gs : list (K * list V)) :
  StronglySorted key_lt (map fst gs) ->
  forall k' vs',
    In (k', vs') (group_insert cmp k v gs) ->
    (In (k', vs') gs /\ cmp k k' <> Eq) \/
    (k' = k /\ vs' = [v] /\ forall k'', In k'' (map fst gs) -> cmp k k'' <> Eq) \/
    (exists vs, In (k', vs) gs /\ cmp k k' = Eq /\ vs' = vs ++ [v]).
Proof.
  induction gs as [|[k1 vs1] rest IH]; intros Hs k' vs'; simpl.
  - intros [H|[]]. injection H as <- <-. right. left.
    split; [reflexivity|]. split; [reflexivity|]. intros k'' [].
  - simpl in Hs. apply StronglySorted_inv in Hs. destruct Hs as [Hrest Hall].
    rewrite Forall_forall in Hall.
    destruct (cmp k k1) eqn:E.
    + (* the group of the key exists *)
      intros [H|H].
      * injection H as <- <-. right. right. exists vs1.
        split; [left; reflexivity|]. split; [exact E|reflexivity].
      * left. split; [right; exact H|].
        rewrite (cmp_eq_compat k k1 k' E).
        assert (Hlt : key_lt k1 k') by (apply Hall; apply (in_map fst _ _ H)).
        unfold key_lt in Hlt. congruence.
    + (* the key comes before every group *)
      assert (Hbelow : forall k'', In k'' (map fst ((k1, vs1) :: rest)) -> cmp k k'' = Lt).
      { intros k'' [<-|Hk]; [exact E|].
        apply (cmp_lt_trans k k1 k'' E). apply Hall. exact Hk. }
      intros [H|H].
      * injection H as <- <-. right. left.
        split; [reflexivity|]. split; [reflexivity|].
        intros k'' Hk. rewrite (Hbelow k'' Hk). discriminate.
      * left. split; [exact H|].
        rewrite (Hbelow k' (in_map fst _ _ H)). discriminate.
    + (* the key comes after the first group *)
      intros [H|H].
      * injection H as <- <-. left. split; [left; reflexivity|]. congruence.
      * destruct (IH Hrest k' vs' H) as [[Hin Hne]|[[-> [-> Hnone]]|[vs [Hin [He ->]]]]].
        -- left. split; [right; exact Hin|exact Hne].
        -- right. left. split; [reflexivity|]. split; [reflexivity|].
           intros k'' [<-|Hk]; [congruence|apply Hnone; exact Hk].
        -- right. right. exists vs. split; [right; exact Hin|]. split; [exact He|reflexivity].
Qed.

Lemma group_insert_has (k : K) (v : V) (gs : list (K * list V)) :
  exists k', In k' (map fst (group_insert cmp k v gs)) /\ cmp k k' = Eq.
Proof.
  induction gs as [|[k1 vs1] rest IH]; simpl.
  - exists k. split; [left; reflexivity|apply cmp_refl].
  - destruct (cmp k k1) eqn:E; simpl.
    + exists k1. split; [left; reflexivity|exact E].
    + exists k. split; [left; reflexivity|apply cmp_refl].
    + destruct IH as [k' [Hin He]]. exists k'. split; [right; exact Hin|exact He].
Qed.

Lemma filter_none {A : Type} (p : A -> bool) (xs : list A) :
  (forall x, In x xs -> p x = false) -> filter p xs = [].
Proof.
  induction xs as [|x t IH]; intros H; [reflexivity|].
  simpl. rewrite (H x (or_introl eq_refl)). apply IH.
  intros y Hy. apply H. right. exact Hy.
Qed.

Lemma grouped_step (rows : list V) (v : V) (gs : list (K * list V)) :
  grouped cmp key rows gs ->
  grouped cmp key (rows ++ [v]) (group_insert cmp (key v) v gs).
Proof.
  intros [Hs [Hgroups Hrows]]. split; [|split].
  - apply group_insert_sorted. exact Hs.
  - intros k' vs' Hin. rewrite filter_app. cbn [filter].
    destruct (group_insert_In (key v) v gs Hs k' vs' Hin)
      as [[Hold Hne]|[[-> [-> Hnone]]|[vs [Hold [He ->]]]]].
    + destruct (Hgroups k' vs' Hold) as [Hvs Hhd].
      replace (in_group cmp key k' v) with false.
      * rewrite app_nil_r. split; assumption.
      * unfold in_group. destruct (cmp (key v) k'); congruence.
    + replace (in_group cmp key (key v) v) with true
        by (unfold in_group; rewrite cmp_refl; reflexivity).
      rewrite filter_none.
      * split; [reflexivity|]. exists v, []. split; reflexivity.
      * intros r Hr. destruct (Hrows r Hr) as [k0 [Hk0 Hin0]].
        unfold in_group in *.
        destruct (cmp (key r) (key v)) eqn:Erv; try reflexivity.
        exfalso. apply (Hnone k0 Hk0).
        rewrite <- (cmp_eq_compat (key r) (key v) k0 Erv).
        destruct (cmp (key r) k0); [reflexivity|discriminate|discriminate].
    + destruct (Hgroups k' vs Hold) as [Hvs [r [rest [Hhd Hk]]]].
      replace (in_group cmp key k' v) with true
        by (unfold in_group; rewrite He; reflexivity).
      split; [rewrite <- Hvs; reflexivity|].
      exists r, (rest ++ [v]). split; [rewrite Hhd; reflexivity|exact Hk].
  - intros r Hr. apply in_app_or in Hr. destruct Hr as [Hr|[<-|[]]].
    + destruct (Hrows r Hr) as [k0 [Hk0 Hin0]].
      exists k0. split; [apply group_insert_keys_kept; exact Hk0|exact Hin0].
    + destruct (group_insert_has (key v) v gs) as [k' [Hin He]].
      exists k'. split; [exact Hin|]. unfold in_group. rewrite He. reflexivity.
Qed.

Lemma groupby_grouped (rows : list V) :
  grouped cmp key rows (groupby cmp key rows).
Proof.
  induction rows as [|v rows IH] using rev_ind.
  - split; [constructor|]. split; [intros k vs []|intros r []].
  - unfold groupby in *. rewrite fold_left_app. cbn [fold_left].
    apply grouped_step. exact IH.
Qed.

End GroupByFacts.

Lemma Zcompare_grouped {V : Type} (key : V -> Z) (rows : list V) :
  grouped Z.compare key rows (groupby Z.compare key rows).
Proof.
  apply groupby_grouped.
  - apply Z.compare_refl.
  - intros a b. apply Z.compare_antisym.
  - intros a b c Hab Hbc. rewrite Z.compare_lt_iff in *. lia.
  - intros a b c Hab. apply Z.compare_eq in Hab. subst. reflexivity.
Qed.

Lemma Qcompare_grouped {V : Type} (key : V -> Q) (rows : list V) :
  grouped Qcompare key rows (groupby Qcompare key rows).
Proof.
  apply groupby_grouped.
  - intros a. apply Qeq_alt. reflexivity.
  - intros a b. symmetry. apply Qcompare_antisym.
  - intros a b c Hab Hbc. apply Qlt_alt in Hab, Hbc.
    apply Qlt_alt. eapply Qlt_trans; eassumption.
  - intros a b c Hab. apply Qeq_alt in Hab. rewrite Hab. reflexivity.
Qed.

(** ** The volume profile *)

Lemma volumeprofile_unfold (trades_df : list Trade) (scale : Q) :
  trades_to_volumeprofile_with_total_delta_bid_ask trades_df scale =
  if Qeq_bool scale 0 then []
  else
    map (fun g => (fst g, sum_rows (map snd (snd g))))
      (groupby Qcompare fst
         (map (fun t => (price_level scale (t_price t), trade_row t)) trades_df)).
Proof.
  unfold trades_to_volumeprofile_with_total_delta_bid_ask.
  destruct trades_df; [|reflexivity].
  destruct (Qeq_bool scale 0); reflexivity.
Qed.

(** X1.  The bins of a volume profile come in strictly ascending price:
    no price occurs twice. *)
Theorem volumeprofile_prices_ascending (trades_df : list Trade) (scale : Q) :
  StronglySorted Qlt
    (map fst (trades_to_volumeprofile_with_total_delta_bid_ask trades_df scale)).
Proof.
  rewrite volumeprofile_unfold.
  destruct (Qeq_bool scale 0); [constructor|].
  rewrite map_map. cbn [fst].
  destruct (Qcompare_grouped fst
              (map (fun t => (price_level scale (t_price t), trade_row t)) trades_df))
    as [Hs _].
  change (fun x : Q * list (Q * OrderflowRow) => fst x)
    with (@fst Q (list (Q * OrderflowRow))).
  induction Hs as [|a l Hl IH Hall]; constructor.
  - exact IH.
  - rewrite Forall_forall in *. intros x Hx. apply Qlt_alt. apply Hall. exact Hx.
Qed.

Lemma filter_map_commute {A B : Type} (f : A -> B) (p : B -> bool) (xs : list A) :
  filter p (map f xs) = map f (filter (fun x => p (f x)) xs).
Proof.
  induction xs as [|x t IH]; [reflexivity|].
  simpl. destruct (p (f x)); simpl; rewrite IH; reflexivity.
Qed.

Lemma profile_bins (trades_df : list Trade) (scale : Q) :
  forall p row,
    In (p, row) (trades_to_volumeprofile_with_total_delta_bid_ask trades_df scale) ->
    row = sum_rows (map trade_row (trades_at scale p trades_df)) /\
    exists t rest,
      trades_at scale p trades_df = t :: rest /\
      p = price_level scale (t_price t).
Proof.
  rewrite volumeprofile_unfold.
  destruct (Qeq_bool scale 0); [intros p row []|].
  set (f := fun t => (price_level scale (t_price t), trade_row t)).
  destruct (Qcompare_grouped fst (map f trades_df)) as [_ [Hgroups _]].
  intros p row Hin. apply in_map_iff in Hin.
  destruct Hin as [[k vs] [Heq Hin]]. cbn [fst snd] in Heq.
  injection Heq as <- <-.
  destruct (Hgroups k vs Hin) as [Hvs [r [rest [Hhd Hk]]]].
  rewrite filter_map_commute in Hvs.
  change (filter (fun x => in_group Qcompare fst k (f x)) trades_df)
    with (trades_at scale k trades_df) in Hvs.
  split.
  - rewrite Hvs, map_map. reflexivity.
  - destruct (trades_at scale k trades_df) as [|t ts] eqn:Et.
    + rewrite Hvs in Hhd. discriminate.
    + exists t, ts. split; [reflexivity|].
      rewrite Hvs in Hhd. cbn [map] in Hhd. injection Hhd as <- _.
      rewrite Hk. reflexivity.
Qed.

Lemma zsum_from (xs : list Z) (a : Z) : fold_left Z.add xs a = a + zsum xs.
Proof.
  unfold zsum. revert a. induction xs as [|x t IH]; intros a; simpl; [lia|].
  rewrite (IH (a + x)), (IH x). lia.
Qed.

Lemma zsum_cons (x : Z) (xs : list Z) : zsum (x :: xs) = x + zsum xs.
Proof. unfold zsum at 1. simpl. apply zsum_from. Qed.

Lemma zsum_app (xs ys : list Z) : zsum (xs ++ ys) = zsum xs + zsum ys.
Proof.
  induction xs as [|x t IH]; [reflexivity|].
  cbn [app]. rewrite !zsum_cons, IH. lia.
Qed.

Lemma zsum_indicator {A : Type} (p : A -> bool) (xs : list A) :
  zsum (map (fun x => if p x then 1 else 0) xs) = Z.of_nat (length (filter p xs)).
Proof.
  induction xs as [|x t IH]; [reflexivity|].
  cbn [map filter]. rewrite zsum_cons, IH.
  destruct (p x); cbn [length]; lia.
Qed.

Lemma zsum_plus {A : Type} (f g : A -> Z) (xs : list A) :
  zsum (map (fun x => f x + g x) xs) = zsum (map f xs) + zsum (map g xs).
Proof.
  induction xs as [|x t IH]; [reflexivity|].
  cbn [map]. rewrite !zsum_cons, IH. lia.
Qed.

Lemma zsum_nil : zsum [] = 0.
Proof. reflexivity. Qed.

Ltac zsum_norm :=
  repeat (rewrite ?zsum_cons, ?zsum_app, ?map_app, ?zsum_nil; cbn [map snd]);
  try lia.

(** Grouping keeps every row once: a count summed group by group is the
    count summed over the rows. *)
Lemma group_insert_total {K V : Type} (cmp : K -> K -> comparison) (f : V -> Z)
    (k : K) (v : V) (gs : list (K * list V)) :
  zsum (map (fun g => zsum (map f (snd g))) (group_insert cmp k v gs)) =
  zsum (map (fun g => zsum (map f (snd g))) gs) + f v.
Proof.
  induction gs as [|[k1 vs1] rest IH]; cbn [group_insert].
  - zsum_norm.
  - destruct (cmp k k1); zsum_norm.
Qed.

Lemma groupby_total {K V : Type} (cmp : K -> K -> comparison) (key : V -> K)
    (f : V -> Z) (rows : list V) :
  zsum (map (fun g => zsum (map f (snd g))) (groupby cmp key rows)) =
  zsum (map f rows).
Proof.
  induction rows as [|v rows IH] using rev_ind; [reflexivity|].
  unfold groupby in *. rewrite fold_left_app. cbn [fold_left].
  rewrite group_insert_total, IH. zsum_norm.
Qed.

(** X2.  Binning loses no trade and counts none twice: for a scale other
    than zero, the [bid] counts of the bins add up to the number of trades
    whose side contains "sell", the [ask] counts to the number of those
    whose side contains "buy", and [total_trades] to the sum of the two. *)
Theorem volumeprofile_conserves_counts (trades_df : list Trade) (scale : Q) :
  ~ (scale == 0)%Q ->
  let profile := trades_to_volumeprofile_with_total_delta_bid_ask trades_df scale in
  zsum (map (fun b => of_bid (snd b)) profile) =
    Z.of_nat (length (filter is_sell trades_df)) /\
  zsum (map (fun b => of_ask (snd b)) profile) =
    Z.of_nat (length (filter is_buy trades_df)) /\
  zsum (map (fun b => of_total_trades (snd b)) profile) =
    Z.of_nat (length (filter is_buy trades_df)) +
    Z.of_nat (length (filter is_sell trades_df)).
Proof.
  intros Hs profile. subst profile. rewrite volumeprofile_unfold.
  destruct (Qeq_bool scale 0) eqn:E; [apply Qeq_bool_iff in E; contradiction|].
  set (rows := map (fun t => (price_level scale (t_price t), trade_row t)) trades_df).
  assert (Hsum : forall col : OrderflowRow -> Z,
            zsum (map (fun g : Q * list (Q * OrderflowRow) =>
                         zsum (map col (map snd (snd g))))
                    (groupby Qcompare fst rows)) =
            zsum (map (fun t => col (trade_row t)) trades_df)).
  { intros col.
    pose proof (groupby_total Qcompare fst (fun r : Q * OrderflowRow => col (snd r)) rows)
      as H.
    subst rows. rewrite map_map in H. cbn [snd] in H. rewrite <- H.
    f_equal. apply map_ext. intros g. rewrite map_map. reflexivity. }
  rewrite !map_map. cbn [snd sum_rows of_bid of_ask of_total_trades].
  rewrite !Hsum. cbn [trade_row of_bid of_ask of_total_trades].
  rewrite (zsum_plus (fun t => if is_buy t then 1 else 0)
                     (fun t => if is_sell t then 1 else 0)).
  rewrite !zsum_indicator. repeat split.
Qed.

Lemma volumeprofile_conserves_counts_witness :
  let profile := trades_to_volumeprofile_with_total_delta_bid_ask three_trades (1 # 2) in
  zsum (map (fun b => of_bid (snd b)) profile) =
    Z.of_nat (length (filter is_sell three_trades)) /\
  zsum (map (fun b => of_ask (snd b)) profile) =
    Z.of_nat (length (filter is_buy three_trades)) /\
  zsum (map (fun b => of_total_trades (snd b)) profile) =
    Z.of_nat (length (filter is_buy three_trades)) +
    Z.of_nat (length (filter is_sell three_trades)).
Proof.
  apply (volumeprofile_conserves_counts three_trades (1 # 2)).
  intros H. discriminate H.
Defined.

Lemma profile_counts (trades_df : list Trade) (scale p : Q) (row : OrderflowRow) :
  In (p, row) (trades_to_volumeprofile_with_total_delta_bid_ask trades_df scale) ->
  of_bid row = Z.of_nat (length (filter is_sell (trades_at scale p trades_df))) /\
  of_ask row = Z.of_nat (length (filter is_buy (trades_at scale p trades_df))) /\
  of_total_trades row = of_ask row + of_bid row.
Proof.
  intros Hin.
  destruct (profile_bins trades_df scale p row Hin) as [-> _].
  cbn [sum_rows of_bid of_ask of_total_trades]. rewrite !map_map.
  cbn [trade_row of_bid of_ask of_total_trades].
  split; [apply zsum_indicator|]. split; [apply zsum_indicator|].
  apply (zsum_plus (fun t => if is_buy t then 1 else 0)
                   (fun t => if is_sell t then 1 else 0)).
Qed.

(** X3.  In every bin of a volume profile the column [bid] is the number
    of trades of the bin whose side contains "sell", the column [ask] the
    number of those whose side contains "buy", and [total_trades] is their
    sum. *)
Theorem volumeprofile_counts (trades_df : list Trade) (scale p : Q) (row : OrderflowRow) :
  In (p, row) (trades_to_volumeprofile_with_total_delta_bid_ask trades_df scale) ->
  of_bid row = Z.of_nat (length (filter is_sell (trades_at scale p trades_df))) /\
  of_ask row = Z.of_nat (length (filter is_buy (trades_at scale p trades_df))) /\
  of_total_trades row = of_ask row + of_bid row.
Proof. exact (profile_counts trades_df scale p row). Qed.

Lemma volumeprofile_counts_witness :
  of_bid (mkOrderflowRow 1 2 1 1 1 3 2) =
    Z.of_nat (length (filter is_sell (trades_at (1 # 2) 100 three_trades))) /\
  of_ask (mkOrderflowRow 1 2 1 1 1 3 2) =
    Z.of_nat (length (filter is_buy (trades_at (1 # 2) 100 three_trades))) /\
  of_total_trades (mkOrderflowRow 1 2 1 1 1 3 2) =
    of_ask (mkOrderflowRow 1 2 1 1 1 3 2) + of_bid (mkOrderflowRow 1 2 1 1 1 3 2).
Proof.
  apply (volumeprofile_counts three_trades (1 # 2) 100%Q (mkOrderflowRow 1 2 1 1 1 3 2)).
  left. reflexivity.
Defined.

(** ** Price levels *)

Lemma round_half_even_near (q : Q) :
  (q - (1 # 2) <= inject_Z (round_half_even q) /\
   inject_Z (round_half_even q) <= q + (1 # 2))%Q.
Proof.
  unfold round_half_even.
  pose proof (Qfloor_le q) as Hlo. pose proof (Qlt_floor q) as Hhi.
  rewrite inject_Z_plus in Hhi.
  change (inject_Z 1) with 1%Q in Hhi.
  destruct (q - inject_Z (Qfloor q) ?= 1 # 2)%Q eqn:E.
  - apply Qeq_alt in E.
    destruct (Z.even (Qfloor q)); rewrite ?inject_Z_plus;
      change (inject_Z 1) with 1%Q; split; lra.
  - apply Qlt_alt in E. split; lra.
  - apply Qgt_alt in E. rewrite inject_Z_plus. change (inject_Z 1) with 1%Q.
    split; lra.
Qed.

Lemma round_half_even_comp (x y : Q) :
  (x == y)%Q -> round_half_even x = round_half_even y.
Proof.
  intros H. unfold round_half_even.
  rewrite (Qfloor_comp x y H).
  assert (Hd : (x - inject_Z (Qfloor y) == y - inject_Z (Qfloor y))%Q)
    by (rewrite H; reflexivity).
  rewrite (Qcompare_comp _ _ Hd (1 # 2) (1 # 2) (Qeq_refl _)).
  reflexivity.
Qed.

Lemma round_half_even_Z (n : Z) : round_half_even (inject_Z n) = n.
Proof.
  unfold round_half_even. rewrite Qfloor_Z.
  assert (H : (inject_Z n - inject_Z n ?= 1 # 2)%Q = Lt).
  { apply (proj1 (Qlt_alt _ _)). generalize (inject_Z n). intros q. lra. }
  rewrite H. reflexivity.
Qed.

(** X5.  Binning is idempotent: a price that is already a level is binned
    to itself, for every scale other than zero. *)
Theorem price_level_idempotent (scale price : Q) :
  ~ (scale == 0)%Q ->
  price_level scale (price_level scale price) = price_level scale price.
Proof.
  intros Hs. unfold price_level at 1 3.
  apply Qred_complete.
  set (n := round_half_even (price / scale)).
  assert (Hn : round_half_even (price_level scale price / scale) = n).
  { rewrite <- (round_half_even_Z n). apply round_half_even_comp.
    unfold price_level. fold n. rewrite Qred_correct.
    apply Qdiv_mult_l. exact Hs. }
  rewrite Hn. reflexivity.
Qed.

Lemma price_level_idempotent_witness :
  price_level (1 # 2) (price_level (1 # 2) (1003 # 10)) =
  price_level (1 # 2) (1003 # 10).
Proof.
  apply (price_level_idempotent (1 # 2) (1003 # 10)).
  intros H. discriminate H.
Defined.

(** ** More on the imbalance detector *)

(** X6.  The imbalance table is aligned with the profile it comes from:
    one row per bin, under the same prices in the same order. *)
Theorem imbalances_aligned (df : Orderflow) (ratio vol : Q) :
  map fst (trades_orderflow_to_imbalances df ratio vol) = map fst df /\
  length (trades_orderflow_to_imbalances df ratio vol) = length df.
Proof.
  split; [apply imbalances_index|apply imbalances_length].
Qed.

Lemma two_neq_0 : ~ (2 == 0)%Q.
Proof. intros H. discriminate H. Qed.

Lemma ilog2_lower (x : Q) : (0 < x)%Q -> (2 ^ ilog2 x <= x)%Q.
Proof.
  intros Hx. unfold ilog2.
  set (a := Z.log2 (Qnum x)). set (b := Z.log2 (Z.pos (Qden x))).
  destruct (Qltb x (2 ^ (a - b))%Q) eqn:E.
  - assert (Hn : 0 < Qnum x).
    { unfold Qlt in Hx. simpl in Hx. lia. }
    destruct (Z.log2_spec (Qnum x) Hn) as [Ha _]. fold a in Ha.
    destruct (Z.log2_spec (Z.pos (Qden x)) eq_refl) as [_ Hb]. fold b in Hb.
    assert (Ha0 : 0 <= a) by apply Z.log2_nonneg.
    assert (Hb0 : 0 <= b) by apply Z.log2_nonneg.
    replace (a - b - 1) with (a - (b + 1)) by lia.
    rewrite (Qpower_minus 2 a (b + 1) two_neq_0).
    apply Qle_shift_div_r; [apply Qpower_0_lt; reflexivity|].
    assert (HA : (2 ^ a <= inject_Z (Qnum x))%Q).
    { change 2%Q with (inject_Z 2). rewrite <- Zpower_Qpower by exact Ha0.
      rewrite <- Zle_Qle. exact Ha. }
    assert (HB : (inject_Z (Z.pos (Qden x)) <= 2 ^ (b + 1))%Q).
    { change 2%Q with (inject_Z 2). rewrite <- Zpower_Qpower by lia.
      rewrite <- Zle_Qle. unfold Z.succ in Hb. lia. }
    assert (HX : (x * inject_Z (Z.pos (Qden x)) == inject_Z (Qnum x))%Q).
    { destruct x as [n d]. unfold Qeq. simpl. rewrite Pos.mul_1_r. ring. }
    assert (HD : (0 < inject_Z (Z.pos (Qden x)))%Q) by reflexivity.
    generalize dependent (inject_Z (Z.pos (Qden x))).
    generalize dependent (inject_Z (Qnum x)).
    generalize ((2 ^ a)%Q). generalize ((2 ^ (b + 1))%Q).
    intros P A N HA D HB HX HD. nra.
  - apply Qnot_lt_le. intros H. apply Qltb_lt in H. congruence.
Qed.

Lemma pow2_le_one (e : Z) : (2 ^ e <= 1)%Q -> e <= 0.
Proof.
  intros H. destruct (Z_le_gt_dec e 0) as [Hle|Hgt]; [exact Hle|].
  exfalso.
  assert (H2 : (2 ^ 1 <= 2 ^ e)%Q).
  { apply Qpower_le_compat_l; [lia|]. unfold Qle. simpl. lia. }
  change (2 ^ 1)%Q with 2%Q in H2. lra.
Qed.

Lemma round_half_even_le (y : Q) (n : Z) :
  (y <= inject_Z n)%Q -> round_half_even y <= n.
Proof.
  intros Hy. destruct (round_half_even_near y) as [_ Hhi].
  assert (H : (inject_Z (round_half_even y) <= inject_Z n + (1 # 2))%Q) by lra.
  unfold Qle, Qplus in H. simpl in H. lia.
Qed.

Lemma round64_pos_le_one (x : Q) :
  (0 < x)%Q -> (x <= 1)%Q ->
  exists y, round64_pos x = Some y /\ (y <= 1)%Q.
Proof.
  intros Hpos Hle. unfold round64_pos.
  set (e := Z.max (ilog2 x) (-1022)).
  assert (He : e <= 0).
  { assert (ilog2 x <= 0).
    { apply pow2_le_one. pose proof (ilog2_lower x Hpos). lra. }
    subst e. lia. }
  set (quantum := (2 ^ (e - 52))%Q).
  assert (Hq : (0 < quantum)%Q) by (apply Qpower_0_lt; reflexivity).
  assert (Hone : (inject_Z (2 ^ (52 - e)) * quantum == 1)%Q).
  { subst quantum. rewrite Zpower_Qpower by lia.
    change (inject_Z 2) with 2%Q.
    rewrite <- (Qpower_plus 2 (52 - e) (e - 52) two_neq_0).
    replace (52 - e + (e - 52)) with 0 by lia. reflexivity. }
  assert (Hm : round_half_even (x / quantum) <= 2 ^ (52 - e)).
  { apply round_half_even_le. apply Qle_shift_div_r; [exact Hq|].
    rewrite Hone. exact Hle. }
  set (m := round_half_even (x / quantum)) in *.
  assert (Hr : (inject_Z m * quantum <= 1)%Q).
  { rewrite <- Hone. apply Qmult_le_compat_r; [|lra].
    rewrite <- Zle_Qle. exact Hm. }
  assert (Hbig : (1 < 2 ^ 1024)%Q) by (vm_compute; reflexivity).
  destruct (Qle_bool (2 ^ 1024) (inject_Z m * quantum)) eqn:E.
  - apply Qle_bool_iff in E. lra.
  - eexists. split; [reflexivity|]. rewrite Qred_correct. exact Hr.
Qed.

Lemma round64_not_above_one (x r : Q) :
  (0 <= x)%Q -> (x <= 1)%Q -> (1 <= r)%Q -> ~ above (round64 x) r.
Proof.
  intros H0 H1 Hr. unfold round64.
  destruct (x ?= 0)%Q eqn:E.
  - simpl. lra.
  - apply Qlt_alt in E. lra.
  - apply Qgt_alt in E.
    destruct (round64_pos_le_one x E H1) as [y [-> Hy]]. simpl. lra.
Qed.

Lemma quotient_in_unit (a b : Q) :
  (0 <= a)%Q -> (a <= b)%Q -> (0 < b)%Q -> (0 <= a / b /\ a / b <= 1)%Q.
Proof.
  intros Ha Hab Hb. split.
  - apply Qle_shift_div_l; [exact Hb|lra].
  - apply Qle_shift_div_r; [exact Hb|lra].
Qed.

Lemma exceeds_exclusive (a b r : Q) :
  (0 <= a)%Q -> (0 <= b)%Q -> (1 <= r)%Q ->
  exceeds a b r -> exceeds b a r -> False.
Proof.
  intros Ha Hb Hr [[Hb0 Hab]|[Hb0 Hapos]] [[Ha0 Hba]|[Ha0 Hbpos]].
  - assert (Hbp : (0 < b)%Q) by (destruct (Qlt_le_dec 0 b) as [H|H]; [exact H|];
      exfalso; apply Hb0; lra).
    assert (Hap : (0 < a)%Q) by (destruct (Qlt_le_dec 0 a) as [H|H]; [exact H|];
      exfalso; apply Ha0; lra).
    destruct (Qlt_le_dec b a) as [Hlt|Hle].
    + destruct (quotient_in_unit b a Hb (Qlt_le_weak _ _ Hlt) Hap) as [H0 H1].
      exact (round64_not_above_one _ r H0 H1 Hr Hba).
    + destruct (quotient_in_unit a b Ha Hle Hbp) as [H0 H1].
      exact (round64_not_above_one _ r H0 H1 Hr Hab).
  - assert (Hle : (a <= b)%Q) by lra.
    destruct (quotient_in_unit a b Ha Hle Hbpos) as [H0 H1].
    exact (round64_not_above_one _ r H0 H1 Hr Hab).
  - assert (Hle : (b <= a)%Q) by lra.
    destruct (quotient_in_unit b a Hb Hle Hapos) as [H0 H1].
    exact (round64_not_above_one _ r H0 H1 Hr Hba).
  - lra.
Qed.

Lemma inject_Z_of_nat_nonneg (n : nat) : (0 <= inject_Z (Z.of_nat n))%Q.
Proof.
  unfold Qle. simpl. lia.
Qed.

(** X7.  On the profile of any trades, with an imbalance ratio of at least
    1, no bin carries both the bid and the ask imbalance flag. *)
Theorem imbalance_flags_exclusive
    (trades_df : list Trade) (scale ratio vol : Q) (i : nat) (p : Q) (row : ImbalanceRow) :
  (1 <= ratio)%Q ->
  nth_error
    (trades_orderflow_to_imbalances
       (trades_to_volumeprofile_with_total_delta_bid_ask trades_df scale) ratio vol) i =
  Some (p, row) ->
  bid_imbalance row && ask_imbalance row = false.
Proof.
  intros Hr Hrow.
  set (df := trades_to_volumeprofile_with_total_delta_bid_ask trades_df scale) in *.
  destruct (nth_error df i) as [[p0 r]|] eqn:Hi.
  2:{ apply nth_error_None in Hi. rewrite <- (imbalances_length df ratio vol) in Hi.
      apply nth_error_None in Hi. congruence. }
  rewrite (imbalances_at df ratio vol i p0 r Hi) in Hrow.
  injection Hrow as <- <-. cbn [bid_imbalance ask_imbalance].
  destruct (Qltb (of_total_volume r) vol); [reflexivity|].
  unfold diagonal_ask.
  destruct (nth_error df (S i)) as [[p' r']|] eqn:Hn; [|reflexivity].
  cbn [snd]. unfold float_of_int.
  match goal with
  | |- (?x && ?y)%bool = false =>
      destruct x eqn:Eb; [|reflexivity]; destruct y eqn:Ea; [|reflexivity]
  end.
  exfalso.
  apply (proj1 (fgt_fdiv_exceeds _ _ _)) in Eb.
  apply (proj1 (fgt_fdiv_exceeds _ _ _)) in Ea.
  destruct (profile_counts trades_df scale p0 r (nth_error_In _ _ Hi)) as [Hbid _].
  destruct (profile_counts trades_df scale p' r' (nth_error_In _ _ Hn)) as [_ [Hask _]].
  apply (exceeds_exclusive (inject_Z (of_bid r)) (inject_Z (of_ask r')) ratio);
    try assumption.
  - rewrite Hbid. apply inject_Z_of_nat_nonneg.
  - rewrite Hask. apply inject_Z_of_nat_nonneg.
Qed.

Lemma imbalance_flags_exclusive_witness :
  bid_imbalance (mkImbalanceRow false false) &&
  ask_imbalance (mkImbalanceRow false false) = false.
Proof.
  apply (imbalance_flags_exclusive three_trades (1 # 2) (3 # 1) (0 # 1) 0 100%Q
           (mkImbalanceRow false false)).
  - unfold Qle. simpl. lia.
  - reflexivity.
Defined.

Lemma fgt_antitone (x : fval) (r r' : Q) :
  (r <= r')%Q -> fgt x r' = true -> fgt x r = true.
Proof.
  intros Hr. destruct x as [q| | |]; simpl; try (intros H; exact H).
  rewrite !Qltb_lt. intros H. lra.
Qed.

Lemma volume_gate_antitone (tv vol vol' : Q) :
  (vol <= vol')%Q -> Qltb tv vol' = false -> Qltb tv vol = false.
Proof.
  intros Hv H. destruct (Qltb tv vol) eqn:E; [|reflexivity].
  apply Qltb_lt in E.
  assert (H' : Qltb tv vol' = true) by (apply Qltb_lt; lra).
  congruence.
Qed.

(** X8.  Lowering a threshold never clears a flag: a flag set under
    [imbalance_ratio] r' and [imbalance_volume] v' is set under every
    r <= r' and v <= v'. *)
Theorem imbalance_flags_antitone
    (df : Orderflow) (ratio ratio' vol vol' : Q) (i : nat) (p : Q) (row' : ImbalanceRow) :
  (ratio <= ratio')%Q ->
  (vol <= vol')%Q ->
  nth_error (trades_orderflow_to_imbalances df ratio' vol') i = Some (p, row') ->
  exists row,
    nth_error (trades_orderflow_to_imbalances df ratio vol) i = Some (p, row) /\
    (bid_imbalance row' = true -> bid_imbalance row = true) /\
    (ask_imbalance row' = true -> ask_imbalance row = true).
Proof.
  intros Hr Hv Hrow'.
  destruct (nth_error df i) as [[p0 r]|] eqn:Hi.
  2:{ apply nth_error_None in Hi. rewrite <- (imbalances_length df ratio' vol') in Hi.
      apply nth_error_None in Hi. congruence. }
  rewrite (imbalances_at df ratio' vol' i p0 r Hi) in Hrow'.
  injection Hrow' as <- <-.
  eexists. split; [apply (imbalances_at df ratio vol i p0 r Hi)|].
  cbn [bid_imbalance ask_imbalance].
  destruct (Qltb (of_total_volume r) vol') eqn:Ev'.
  - split; discriminate.
  - rewrite (volume_gate_antitone _ vol vol' Hv Ev').
    split; apply fgt_antitone; exact Hr.
Qed.

Lemma imbalance_flags_antitone_witness :
  exists row,
    nth_error
      (trades_orderflow_to_imbalances
         [ (100%Q, mkOrderflowRow 9 0 7 0 (-9) 9 7);
           ((201 # 2)%Q, mkOrderflowRow 0 5 0 2 5 5 2) ] (2 # 1) (1 # 1)) 0 =
    Some (100%Q, row) /\ bid_imbalance row = true.
Proof.
  destruct (imbalance_flags_antitone
              [ (100%Q, mkOrderflowRow 9 0 7 0 (-9) 9 7);
                ((201 # 2)%Q, mkOrderflowRow 0 5 0 2 5 5 2) ]
              (2 # 1) (3 # 1) (1 # 1) (5 # 1) 0 100%Q (mkImbalanceRow true false))
    as [row [Hrow [Hbid _]]].
  - unfold Qle. simpl. lia.
  - unfold Qle. simpl. lia.
  - reflexivity.
  - exists row. split; [exact Hrow|]. apply Hbid. reflexivity.
Defined.

(** ** More on the stacked-imbalance scan *)

Lemma leading_trues_le (bs : list bool) : (leading_trues bs <= length bs)%nat.
Proof.
  induction bs as [|[|] t IH]; simpl; lia.
Qed.

Lemma leading_trues_nth (bs : list bool) :
  forall m, (m < leading_trues bs)%nat -> nth_error bs m = Some true.
Proof.
  induction bs as [|[|] t IH]; intros m Hm; simpl in Hm; try lia.
  destruct m as [|m]; [reflexivity|]. simpl. apply IH. lia.
Qed.

Lemma run_ending_at_le (bs : list bool) (i : nat) :
  (run_ending_at bs i <= length bs)%nat.
Proof.
  unfold run_ending_at.
  pose proof (leading_trues_le (rev (firstn (S i) bs))) as H.
  rewrite length_rev, length_firstn in H. lia.
Qed.

Lemma run_ending_at_true (bs : list bool) (i j : nat) :
  (i < length bs)%nat ->
  (S i - run_ending_at bs i <= j)%nat -> (j <= i)%nat ->
  nth_error bs j = Some true.
Proof.
  intros Hi Hlo Hhi.
  pose proof (leading_trues_le (rev (firstn (S i) bs))) as Hle.
  assert (Hlen : length (firstn (S i) bs) = S i)
    by (rewrite length_firstn; lia).
  rewrite length_rev, Hlen in Hle.
  assert (Hm : (i - j < leading_trues (rev (firstn (S i) bs)))%nat)
    by (unfold run_ending_at in Hlo; lia).
  apply leading_trues_nth in Hm.
  rewrite nth_error_rev, Hlen in Hm.
  assert (Hlt : (i - j <? S i)%nat = true) by (apply Nat.ltb_lt; lia).
  rewrite Hlt in Hm.
  replace (S i - S (i - j))%nat with j in Hm by lia.
  rewrite nth_error_firstn in Hm.
  assert (Hj : (j <? S i)%nat = true) by (apply Nat.ltb_lt; lia).
  rewrite Hj in Hm. exact Hm.
Qed.

(** X9.  With a range of zero or less every bin qualifies, flagged or not:
    the bid scan returns the price of the lowest bin and the ask scan the
    price of the highest one (NaN only for a table without bins). *)
Theorem stacked_scan_nonpositive_range (df : Imbalances) (range : Z) :
  range <= 0 ->
  stacked_imbalance_bid df range = price_at df 0 /\
  stacked_imbalance_ask df range = price_at df (length df - 1).
Proof.
  intros Hr.
  assert (Hq : forall label i, (i < length df)%nat ->
                 qualifies (map (fun r => imbalance_column label (snd r)) df) range i).
  { intros label i Hi. split; [rewrite length_map; exact Hi|lia]. }
  split.
  - pose proof (stacked_imbalance_scan df bid range false) as H. cbv zeta in H.
    unfold stacked_imbalance_bid.
    destruct (stacked_imbalance df bid range false) as [p|].
    + destruct H as [i [Hp [[Hi _] Hmin]]]. rewrite length_map in Hi.
      assert (Hi0 : (i <= 0)%nat) by (apply Hmin; apply Hq; lia).
      replace i with O in Hp by lia. symmetry. exact Hp.
    + destruct df as [|r t]; [reflexivity|].
      exfalso. apply (H O). apply Hq. simpl. lia.
  - pose proof (stacked_imbalance_scan df ask range true) as H. cbv zeta in H.
    unfold stacked_imbalance_ask.
    destruct (stacked_imbalance df ask range true) as [p|].
    + destruct H as [i [Hp [[Hi _] Hmax]]]. rewrite length_map in Hi.
      assert (Hi0 : (length df - 1 <= i)%nat) by (apply Hmax; apply Hq; lia).
      replace (length df - 1)%nat with i by lia. symmetry. exact Hp.
    + destruct df as [|r t]; [reflexivity|].
      exfalso. apply (H O). apply Hq. simpl. lia.
Qed.

Lemma stacked_scan_nonpositive_range_witness :
  stacked_imbalance_bid
    [ (100%Q, mkImbalanceRow false false); ((201 # 2)%Q, mkImbalanceRow false false) ] 0 =
    Some 100%Q /\
  stacked_imbalance_ask
    [ (100%Q, mkImbalanceRow false false); ((201 # 2)%Q, mkImbalanceRow false false) ] 0 =
    Some (201 # 2)%Q.
Proof.
  apply (stacked_scan_nonpositive_range
           [ (100%Q, mkImbalanceRow false false);
             ((201 # 2)%Q, mkImbalanceRow false false) ] 0).
  lia.
Defined.

(** X10.  A range larger than the number of bins is never reached: both
    scans return NaN. *)
Theorem stacked_scan_range_too_large (df : Imbalances) (range : Z) :
  Z.of_nat (length df) < range ->
  stacked_imbalance_bid df range = None /\
  stacked_imbalance_ask df range = None.
Proof.
  intros Hr.
  assert (Hq : forall label i,
                 ~ qualifies (map (fun r => imbalance_column label (snd r)) df) range i).
  { intros label i [_ Hrun].
    pose proof (run_ending_at_le (map (fun r => imbalance_column label (snd r)) df) i) as H.
    rewrite length_map in H. lia. }
  split.
  - pose proof (stacked_imbalance_scan df bid range false) as H. cbv zeta in H.
    unfold stacked_imbalance_bid.
    destruct (stacked_imbalance df bid range false) as [p|]; [|reflexivity].
    destruct H as [i [_ [Hi _]]]. exfalso. exact (Hq bid i Hi).
  - pose proof (stacked_imbalance_scan df ask range true) as H. cbv zeta in H.
    unfold stacked_imbalance_ask.
    destruct (stacked_imbalance df ask range true) as [p|]; [|reflexivity].
    destruct H as [i [_ [Hi _]]]. exfalso. exact (Hq ask i Hi).
Qed.

Lemma stacked_scan_range_too_large_witness :
  stacked_imbalance_bid
    [ (100%Q, mkImbalanceRow true true); ((201 # 2)%Q, mkImbalanceRow true true) ] 3 = None /\
  stacked_imbalance_ask
    [ (100%Q, mkImbalanceRow true true); ((201 # 2)%Q, mkImbalanceRow true true) ] 3 = None.
Proof.
  apply (stacked_scan_range_too_large
           [ (100%Q, mkImbalanceRow true true); ((201 # 2)%Q, mkImbalanceRow true true) ] 3).
  simpl. lia.
Defined.

(** X11.  A price returned by a scan is the price of a bin that closes a
    stack: the bin and the bins below it, [range] bins in all, exist and
    carry the flag of the scanned column. *)
Theorem stacked_scan_result_is_stacked
    (df : Imbalances) (label : Label) (range : Z) (should_reverse : bool) (p : Q) :
  stacked_imbalance df label range should_reverse = Some p ->
  exists i,
    price_at df i = Some p /\
    (Z.to_nat range <= S i)%nat /\
    forall j, (S i - Z.to_nat range <= j)%nat -> (j <= i)%nat ->
      option_map (fun r => imbalance_column label (snd r)) (nth_error df j) = Some true.
Proof.
  intros Hres.
  pose proof (stacked_imbalance_scan df label range should_reverse) as H.
  cbv zeta in H. rewrite Hres in H.
  destruct H as [i [Hp [[Hi Hrun] _]]].
  exists i. split; [exact Hp|].
  pose proof (run_ending_at_true
                (map (fun r => imbalance_column label (snd r)) df) i) as Htrue.
  assert (Hle : (run_ending_at (map (fun r => imbalance_column label (snd r)) df) i
                 <= S i)%nat).
  { unfold run_ending_at.
    pose proof (leading_trues_le
                  (rev (firstn (S i) (map (fun r => imbalance_column label (snd r)) df)))) as L.
    rewrite length_rev, length_firstn in L. lia. }
  split; [lia|].
  intros j Hlo Hhi. rewrite <- nth_error_map.
  apply Htrue; [exact Hi| |exact Hhi]. lia.
Qed.

Lemma stacked_scan_result_is_stacked_witness :
  exists i,
    price_at [ (100%Q, mkImbalanceRow true false); ((201 # 2)%Q, mkImbalanceRow true false) ] i =
      Some (201 # 2)%Q /\
    (Z.to_nat 2 <= S i)%nat /\
    forall j, (S i - Z.to_nat 2 <= j)%nat -> (j <= i)%nat ->
      option_map (fun r => imbalance_column bid (snd r))
        (nth_error [ (100%Q, mkImbalanceRow true false);
                     ((201 # 2)%Q, mkImbalanceRow true false) ] j) = Some true.
Proof.
  apply (stacked_scan_result_is_stacked
           [ (100%Q, mkImbalanceRow true false); ((201 # 2)%Q, mkImbalanceRow true false) ]
           bid 2 false (201 # 2)%Q).
  reflexivity.
Defined.

(** X12.  Raising the range never creates a result: when a scan returns
    NaN for a range, it returns NaN for every larger range. *)
Theorem stacked_scan_monotone
    (df : Imbalances) (label : Label) (range range' : Z) (should_reverse : bool) :
  range <= range' ->
  stacked_imbalance df label range should_reverse = None ->
  stacked_imbalance df label range' should_reverse = None.
Proof.
  intros Hr Hnone.
  pose proof (stacked_imbalance_scan df label range should_reverse) as H.
  pose proof (stacked_imbalance_scan df label range' should_reverse) as H'.
  cbv zeta in H, H'. rewrite Hnone in H.
  destruct (stacked_imbalance df label range' should_reverse) as [p|]; [|reflexivity].
  destruct H' as [i [_ [[Hi Hrun] _]]].
  exfalso. apply (H i). split; [exact Hi|lia].
Qed.

Lemma stacked_scan_monotone_witness :
  stacked_imbalance
    [ (100%Q, mkImbalanceRow true false); ((201 # 2)%Q, mkImbalanceRow false false) ]
    bid 3 false = None.
Proof.
  apply (stacked_scan_monotone
           [ (100%Q, mkImbalanceRow true false); ((201 # 2)%Q, mkImbalanceRow false false) ]
           bid 2 3 false).
  - lia.
  - reflexivity.
Defined.

(** ** More on the population of the candle table *)

Lemma process_group_length
    (timeframe_to_next_date : string -> Datetime -> Exception + Datetime)
    (config : Config) (groups : list (Datetime * list CandleTrade))
    (group : Datetime * list CandleTrade) (s : Store) :
  length (dataframe (fst (process_group timeframe_to_next_date config groups group s))) =
  length (dataframe s).
Proof.
  destruct s as [df cache lg]. destruct group as [cs g].
  cbn [dataframe fst].
  run_cases; try reflexivity;
    rewrite ?update_at_length, ?map2_length, ?length_map;
    try reflexivity; apply Nat.min_id.
Qed.

Lemma for_each_length
    (timeframe_to_next_date : string -> Datetime -> Exception + Datetime)
    (config : Config) (all gs : list (Datetime * list CandleTrade)) :
  forall s,
    length (dataframe (fst (for_each (process_group timeframe_to_next_date config all) gs s))) =
    length (dataframe s).
Proof.
  induction gs as [|g t IH]; intros s; [reflexivity|].
  rewrite for_each_step.
  pose proof (process_group_length timeframe_to_next_date config all g s) as Hstep.
  destruct (process_group timeframe_to_next_date config all g s) as [s' [e|u]];
    cbn [fst] in *; [exact Hstep|].
  rewrite IH. exact Hstep.
Qed.

(** X13.  A call never adds or removes a candle: the table it leaves has
    as many rows as the table it was given, whether it returns or raises. *)
Theorem populate_keeps_row_count
    (timeframe_to_resample_freq : string -> Exception + string)
    (dt_floor : string -> Datetime -> Exception + Datetime)
    (timeframe_to_next_date : string -> Datetime -> Exception + Datetime)
    (config : Config) (trades_df : option (list Trade)) (s : Store) :
  length
    (dataframe
       (fst (populate_dataframe_with_trades timeframe_to_resample_freq dt_floor
               timeframe_to_next_date config trades_df s))) =
  length (dataframe s).
Proof.
  assert (Hinit : length (dataframe (initialised s)) = length (dataframe s))
    by (cbn [initialised dataframe]; apply length_map).
  destruct trades_df as [[|t ts]|]; try exact Hinit.
  rewrite populate_by_processing, processing_by_groups.
  destruct (trade_groups _ _ _ _ _ _) as [e|groups]; [exact Hinit|].
  pose proof (for_each_length timeframe_to_next_date config groups groups
                (initialised s)) as Hloop.
  destruct (for_each _ groups (initialised s)) as [s' [e|u]];
    cbn [fst logged dataframe] in *; congruence.
Qed.

Lemma cache_step_bound (config : Config) (before after : Cache) :
  live_or_dry_run config = true ->
  cache_step config before after ->
  Z.of_nat (length after) <=
  Z.max (Z.of_nat (length before)) (cache_size (config_orderflow config)).
Proof.
  intros Hmode [->|[key [entry [_ ->]]]]; [lia|].
  cbv zeta. rewrite Hmode. cbn [andb].
  destruct (cache_size (config_orderflow config) <? _) eqn:E.
  - rewrite length_tl, length_app. cbn [length]. lia.
  - apply Z.ltb_ge in E. lia.
Qed.

Lemma for_each_cache_bound
    (timeframe_to_next_date : string -> Datetime -> Exception + Datetime)
    (config : Config) (all gs : list (Datetime * list CandleTrade)) :
  live_or_dry_run config = true ->
  forall s,
    Z.of_nat
      (length
         (cached_grouped_trades
            (fst (for_each (process_group timeframe_to_next_date config all) gs s)))) <=
    Z.max (Z.of_nat (length (cached_grouped_trades s)))
          (cache_size (config_orderflow config)).
Proof.
  intros Hmode. induction gs as [|g t IH]; intros s; [cbn [for_each ret fst]; lia|].
  rewrite for_each_step.
  pose proof (cache_step_bound config _ _ Hmode
                (process_group_cache timeframe_to_next_date config all g s)) as Hstep.
  destruct (process_group timeframe_to_next_date config all g s) as [s' [e|u]];
    cbn [fst] in *; [exact Hstep|].
  specialize (IH s'). lia.
Qed.

(** X14.  In live or dry-run mode a call leaves the cache no larger than
    [cache_size], or than it found it when it was larger already. *)
Theorem live_cache_is_bounded
    (timeframe_to_resample_freq : string -> Exception + string)
    (dt_floor : string -> Datetime -> Exception + Datetime)
    (timeframe_to_next_date : string -> Datetime -> Exception + Datetime)
    (config : Config) (trades_df : option (list Trade)) (s : Store) :
  live_or_dry_run config = true ->
  Z.of_nat
    (length
       (cached_grouped_trades
          (fst (populate_dataframe_with_trades timeframe_to_resample_freq dt_floor
                  timeframe_to_next_date config trades_df s)))) <=
  Z.max (Z.of_nat (length (cached_grouped_trades s)))
        (cache_size (config_orderflow config)).
Proof.
  intros Hmode.
  destruct trades_df as [[|t ts]|];
    try (cbn [populate_dataframe_with_trades]; cbn; lia).
  rewrite populate_by_processing, processing_by_groups.
  destruct (trade_groups _ _ _ _ _ _) as [e|groups];
    [cbn [fst logged initialised cached_grouped_trades]; lia|].
  pose proof (for_each_cache_bound timeframe_to_next_date config groups groups
                Hmode (initialised s)) as Hloop.
  destruct (for_each _ groups (initialised s)) as [s' [e|u]];
    cbn [fst logged initialised cached_grouped_trades] in *; exact Hloop.
Qed.

Lemma live_cache_is_bounded_witness :
  Z.of_nat (length (cache_after (Some LIVE))) <= Z.max (Z.of_nat (length old_cache)) 1.
Proof.
  apply (live_cache_is_bounded minute_freq minute_floor minute_next
           (plain_config (Some LIVE) 1) (Some three_trades)
           (mkStore [plain_candle ten_o_clock] old_cache [])).
  reflexivity.
Defined.

Lemma map_exc_ok {A B : Type} (f : A -> Exception + B) (xs : list A) :
  forall ys,
    map_exc f xs = inr ys ->
    length ys = length xs /\
    forall i x, nth_error xs i = Some x ->
                exists y, f x = inr y /\ nth_error ys i = Some y.
Proof.
  induction xs as [|x t IH]; intros ys H; simpl in H.
  - injection H as <-. split; [reflexivity|]. intros [|i] x Hx; discriminate.
  - destruct (f x) as [e|y] eqn:Ef; [discriminate|].
    destruct (map_exc f t) as [e|ys'] eqn:Et; [discriminate|].
    injection H as <-. destruct (IH ys' eq_refl) as [Hlen Hnth].
    split; [simpl; congruence|].
    intros [|i] x' Hx; simpl in Hx.
    + injection Hx as <-. exists y. split; [exact Ef|reflexivity].
    + apply Hnth. exact Hx.
Qed.

Lemma map_exc_total {A B : Type} (f : A -> Exception + B) (xs : list A) :
  (forall x, In x xs -> exists y, f x = inr y) ->
  exists ys, map_exc f xs = inr ys.
Proof.
  induction xs as [|x t IH]; intros H; simpl.
  - exists []. reflexivity.
  - destruct (H x (or_introl eq_refl)) as [y ->].
    destruct IH as [ys ->]; [intros x' Hx'; apply H; right; exact Hx'|].
    exists (y :: ys). reflexivity.
Qed.

Lemma candle_bounds
    (timeframe_to_resample_freq : string -> Exception + string)
    (dt_floor : string -> Datetime -> Exception + Datetime)
    (timeframe_to_next_date : string -> Datetime -> Exception + Datetime)
    (df : list Trade) (timeframe : string) (out : list CandleTrade) :
  _calculate_ohlcv_candle_start_and_end timeframe_to_resample_freq dt_floor
    timeframe_to_next_date df timeframe = inr out ->
  exists freq,
    timeframe_to_resample_freq timeframe = inr freq /\
    length out = length df /\
    forall i t,
      nth_error df i = Some t ->
      exists cs ce,
        dt_floor freq (t_date t) = inr cs /\
        timeframe_to_next_date timeframe cs = inr ce /\
        nth_error out i = Some (mkCandleTrade t cs ce).
Proof.
  unfold _calculate_ohlcv_candle_start_and_end.
  destruct (timeframe_to_resample_freq timeframe) as [e|freq]; [discriminate|].
  destruct (map_exc _ df) as [e|starts] eqn:Es; [discriminate|].
  destruct (map_exc _ starts) as [e|ends] eqn:Ee; [discriminate|].
  intros H. injection H as <-.
  destruct (map_exc_ok _ _ _ Es) as [Hls Hs].
  destruct (map_exc_ok _ _ _ Ee) as [Hle He].
  exists freq. split; [reflexivity|]. split.
  - rewrite map2_length, length_combine. lia.
  - intros i t Ht.
    destruct (Hs i t Ht) as [cs [Hcs Hi]].
    destruct (He i cs Hi) as [ce [Hce Hj]].
    exists cs, ce. split; [exact Hcs|]. split; [exact Hce|].
    rewrite map2_nth_error, combine_nth_error, Ht, Hi, Hj. reflexivity.
Qed.

(** X15.  When the candle bounds of a trade table are computed, the result
    has one row per trade, in the order of the table, and row [i] carries
    trade [i] with the floor of its date as candle start and the next date
    of that start as candle end. *)
Theorem candle_bounds_of_trades
    (timeframe_to_resample_freq : string -> Exception + string)
    (dt_floor : string -> Datetime -> Exception + Datetime)
    (timeframe_to_next_date : string -> Datetime -> Exception + Datetime)
    (df : list Trade) (timeframe : string) (out : list CandleTrade) :
  _calculate_ohlcv_candle_start_and_end timeframe_to_resample_freq dt_floor
    timeframe_to_next_date df timeframe = inr out ->
  exists freq,
    timeframe_to_resample_freq timeframe = inr freq /\
    length out = length df /\
    forall i t,
      nth_error df i = Some t ->
      exists cs ce,
        dt_floor freq (t_date t) = inr cs /\
        timeframe_to_next_date timeframe cs = inr ce /\
        nth_error out i = Some (mkCandleTrade t cs ce).
Proof. apply candle_bounds. Qed.

Lemma candle_bounds_of_trades_witness :
  exists freq,
    minute_freq "1m" = inr freq /\
    length
      [ mkCandleTrade (mkTrade (ten_o_clock + 1000) 100 2 "buy")
          ten_o_clock (ten_o_clock + 60000) ] =
    length [ mkTrade (ten_o_clock + 1000) 100 2 "buy" ] /\
    forall i t,
      nth_error [ mkTrade (ten_o_clock + 1000) 100 2 "buy" ] i = Some t ->
      exists cs ce,
        minute_floor freq (t_date t) = inr cs /\
        minute_next "1m" cs = inr ce /\
        nth_error
          [ mkCandleTrade (mkTrade (ten_o_clock + 1000) 100 2 "buy")
              ten_o_clock (ten_o_clock + 60000) ] i =
        Some (mkCandleTrade t cs ce).
Proof.
  apply (candle_bounds_of_trades minute_freq minute_floor minute_next
           [ mkTrade (ten_o_clock + 1000) 100 2 "buy" ] "1m").
  reflexivity.
Defined.

Lemma StronglySorted_weaken {A : Type} (R R' : A -> A -> Prop) (xs : list A) :
  (forall a b, R a b -> R' a b) ->
  StronglySorted R xs -> StronglySorted R' xs.
Proof.
  intros Himp Hs. induction Hs as [|a l Hl IH Hall]; constructor; [exact IH|].
  rewrite Forall_forall in *. intros x Hx. apply Himp. apply Hall. exact Hx.
Qed.

Lemma trade_groups_facts
    (timeframe_to_resample_freq : string -> Exception + string)
    (dt_floor : string -> Datetime -> Exception + Datetime)
    (timeframe_to_next_date : string -> Datetime -> Exception + Datetime)
    (config : Config) (trades_df : list Trade) (df : list Candle)
    (groups : list (Datetime * list CandleTrade)) :
  trade_groups timeframe_to_resample_freq dt_floor timeframe_to_next_date
    config trades_df df = inr groups ->
  exists freq start_date,
    timeframe_to_resample_freq (timeframe config) = inr freq /\
    iat0 (map date (tail (max_candles (config_orderflow config)) df)) = inr start_date /\
    StronglySorted Z.lt (map fst groups) /\
    (forall k g,
       In (k, g) groups ->
       g <> [] /\ start_date <= k /\
       forall ct, In ct g ->
         candle_start ct = k /\
         In (trade ct) trades_df /\
         dt_floor freq (t_date (trade ct)) = inr k /\
         timeframe_to_next_date (timeframe config) k = inr (candle_end ct)) /\
    (forall t cs,
       In t trades_df ->
       dt_floor freq (t_date t) = inr cs ->
       start_date <= cs ->
       exists g, In (cs, g) groups /\ In t (map trade g)).
Proof.
  unfold trade_groups.
  destruct (_calculate_ohlcv_candle_start_and_end _ _ _ _ _) as [e|trades_c] eqn:Ec;
    [discriminate|].
  destruct (iat0 _) as [e|start_date] eqn:Ew; [discriminate|].
  intros H. injection H as <-.
  destruct (candle_bounds _ _ _ _ _ _ Ec) as [freq [Hfreq [Hlen Hrows]]].
  exists freq, start_date. split; [exact Hfreq|]. split; [reflexivity|].
  set (trades_w := filter (fun t => start_date <=? candle_start t) trades_c).
  destruct (Zcompare_grouped candle_start trades_w) as [Hs [Hgroups Hall]].
  assert (Hfrom : forall ct, In ct trades_c ->
            In (trade ct) trades_df /\
            dt_floor freq (t_date (trade ct)) = inr (candle_start ct) /\
            timeframe_to_next_date (timeframe config) (candle_start ct) =
              inr (candle_end ct)).
  { intros ct Hct. apply In_nth_error in Hct. destruct Hct as [i Hi].
    destruct (nth_error trades_df i) as [t|] eqn:Et.
    - destruct (Hrows i t Et) as [cs [ce [Hcs [Hce Hout]]]].
      rewrite Hi in Hout. injection Hout as ->. cbn [trade candle_start candle_end].
      split; [apply (nth_error_In _ _ Et)|]. split; assumption.
    - apply nth_error_None in Et.
      assert (Hlt : (i < length trades_c)%nat) by (apply nth_error_Some; congruence).
      lia. }
  split; [|split].
  - apply (StronglySorted_weaken _ _ _ (fun a b => proj1 (Z.compare_lt_iff a b)) Hs).
  - intros k g Hin.
    destruct (Hgroups k g Hin) as [Hg [r [rest [Hhd Hk]]]].
    assert (Hmem : forall ct, In ct g ->
              In ct trades_c /\ start_date <= candle_start ct /\ candle_start ct = k).
    { intros ct Hct. rewrite Hg in Hct. apply filter_In in Hct.
      destruct Hct as [Hw Hkey]. apply filter_In in Hw. destruct Hw as [Hc Hge].
      split; [exact Hc|]. split; [apply Z.leb_le; exact Hge|].
      unfold in_group in Hkey.
      destruct (candle_start ct ?= k) eqn:E; try discriminate.
      apply Z.compare_eq. exact E. }
    split; [rewrite Hhd; discriminate|]. split.
    + destruct (Hmem r) as [_ [Hge Heq]]; [rewrite Hhd; left; reflexivity|]. lia.
    + intros ct Hct. destruct (Hmem ct Hct) as [Hc [_ Heq]].
      destruct (Hfrom ct Hc) as [Ht [Hf Hn]].
      split; [exact Heq|]. split; [exact Ht|]. rewrite <- Heq. split; assumption.
  - intros t cs Ht Hcs Hge.
    apply In_nth_error in Ht. destruct Ht as [i Hi].
    destruct (Hrows i t Hi) as [cs' [ce [Hcs' [Hce Hout]]]].
    assert (cs' = cs) by congruence. subst cs'.
    set (ct := mkCandleTrade t cs ce) in *.
    assert (Hw : In ct trades_w).
    { apply filter_In. split; [apply (nth_error_In _ _ Hout)|].
      apply Z.leb_le. exact Hge. }
    destruct (Hall ct Hw) as [k [Hk Hkey]].
    apply in_map_iff in Hk. destruct Hk as [[k' g] [Hfst Hin]].
    cbn [fst] in Hfst. subst k'.
    assert (Hkcs : k = cs).
    { unfold in_group in Hkey. cbn [ct candle_start] in Hkey.
      destruct (cs ?= k) eqn:E; try discriminate.
      symmetry. apply Z.compare_eq. exact E. }
    subst k. exists g. split; [exact Hin|].
    destruct (Hgroups cs g Hin) as [Hg _].
    apply in_map_iff. exists ct. split; [reflexivity|].
    rewrite Hg. apply filter_In. split; [exact Hw|exact Hkey].
Qed.

(** X16.  The groups the loop visits: their candle starts are strictly
    ascending and none is before the start of the window; no group is
    empty; a group holds trades of the table whose date floors to the
    candle start of the group; and every trade of the table whose candle
    start is not before the window is in the group of that start. *)
Theorem groups_of_the_window
    (timeframe_to_resample_freq : string -> Exception + string)
    (dt_floor : string -> Datetime -> Exception + Datetime)
    (timeframe_to_next_date : string -> Datetime -> Exception + Datetime)
    (config : Config) (trades_df : list Trade) (df : list Candle)
    (groups : list (Datetime * list CandleTrade)) :
  trade_groups timeframe_to_resample_freq dt_floor timeframe_to_next_date
    config trades_df df = inr groups ->
  exists freq start_date,
    timeframe_to_resample_freq (timeframe config) = inr freq /\
    iat0 (map date (tail (max_candles (config_orderflow config)) df)) = inr start_date /\
    StronglySorted Z.lt (map fst groups) /\
    (forall k g,
       In (k, g) groups ->
       g <> [] /\ start_date <= k /\
       forall ct, In ct g ->
         candle_start ct = k /\
         In (trade ct) trades_df /\
         dt_floor freq (t_date (trade ct)) = inr k /\
         timeframe_to_next_date (timeframe config) k = inr (candle_end ct)) /\
    (forall t cs,
       In t trades_df ->
       dt_floor freq (t_date t) = inr cs ->
       start_date <= cs ->
       exists g, In (cs, g) groups /\ In t (map trade g)).
Proof. apply trade_groups_facts. Qed.

Lemma groups_of_the_window_witness :
  exists freq start_date,
    minute_freq "1m" = inr freq /\
    iat0 (map date (tail 10 [plain_candle ten_o_clock])) = inr start_date.
Proof.
  destruct (groups_of_the_window minute_freq minute_floor minute_next
              (plain_config None 10) three_trades [plain_candle ten_o_clock]
              [(ten_o_clock,
                [ mkCandleTrade (mkTrade (ten_o_clock + 1000) 100 2 "buy")
                    ten_o_clock (ten_o_clock + 60000);
                  mkCandleTrade (mkTrade (ten_o_clock + 2000) 100 1 "sell")
                    ten_o_clock (ten_o_clock + 60000);
                  mkCandleTrade (mkTrade (ten_o_clock + 3000) (201 # 2) 5 "buy")
                    ten_o_clock (ten_o_clock + 60000) ])]
              eq_refl)
    as [freq [start_date [Hf [Hw _]]]].
  exists freq, start_date. split; [exact Hf|exact Hw].
Defined.

Lemma tail_nonempty {A : Type} (n : Z) (xs : list A) :
  0 < n -> xs <> [] -> tail n xs <> [].
Proof.
  intros Hn Hxs. unfold tail.
  destruct (n =? 0) eqn:E0; [apply Z.eqb_eq in E0; lia|].
  destruct (0 <? n) eqn:E1; [|apply Z.ltb_ge in E1; lia].
  intros H. apply (f_equal (@length A)) in H.
  rewrite length_skipn in H. cbn [length] in H.
  destruct xs; [contradiction|]. cbn [length] in H. lia.
Qed.

Lemma trade_groups_total
    (timeframe_to_resample_freq : string -> Exception + string)
    (dt_floor : string -> Datetime -> Exception + Datetime)
    (timeframe_to_next_date : string -> Datetime -> Exception + Datetime)
    (config : Config) (trades_df : list Trade) (df : list Candle) :
  (exists freq, timeframe_to_resample_freq (timeframe config) = inr freq) ->
  (forall freq d, exists d', dt_floor freq d = inr d') ->
  (forall d, exists d', timeframe_to_next_date (timeframe config) d = inr d') ->
  0 < max_candles (config_orderflow config) ->
  df <> [] ->
  exists groups,
    trade_groups timeframe_to_resample_freq dt_floor timeframe_to_next_date
      config trades_df df = inr groups.
Proof.
  intros [freq Hfreq] Hfloor Hnext Hmax Hdf.
  unfold trade_groups, _calculate_ohlcv_candle_start_and_end. rewrite Hfreq.
  destruct (map_exc_total (fun t => dt_floor freq (t_date t)) trades_df) as [starts ->];
    [intros t _; apply Hfloor|].
  destruct (map_exc_total (timeframe_to_next_date (timeframe config)) starts) as [ends ->];
    [intros d _; apply Hnext|].
  destruct (tail (max_candles (config_orderflow config)) df) as [|c rest] eqn:Et.
  - exfalso. exact (tail_nonempty _ _ Hmax Hdf Et).
  - cbn [map iat0]. eexists. reflexivity.
Qed.

Lemma get_absent {V : Type} (k : CacheKey) (d : list (CacheKey * V)) :
  (forall k', In k' (map fst d) -> fst k' <> fst k) ->
  OrderedDict.get k d = None.
Proof.
  induction d as [|[k' v] rest IH]; intros H; [reflexivity|].
  simpl. destruct (key_eqb k k') eqn:E.
  - exfalso. apply (H k'); [left; reflexivity|].
    unfold key_eqb in E. apply andb_prop in E. destruct E as [E _].
    apply Z.eqb_eq in E. congruence.
  - apply IH. intros k'' Hk. apply H. right. exact Hk.
Qed.

Lemma In_map_tl {A B : Type} (f : A -> B) (y : B) (xs : list A) :
  In y (map f (tl xs)) -> In y (map f xs).
Proof. destruct xs; simpl; auto. Qed.

Lemma set_keys {V : Type} (k : CacheKey) (v : V) (d : list (CacheKey * V)) :
  forall k', In k' (map fst (OrderedDict.set k v d)) -> k' = k \/ In k' (map fst d).
Proof.
  induction d as [|[k1 v1] rest IH]; intros k'; simpl.
  - intros [<-|[]]. left. reflexivity.
  - destruct (key_eqb k k1); simpl.
    + intros H. right. exact H.
    + intros [<-|H]; [right; left; reflexivity|].
      destruct (IH k' H) as [->|Hin]; [left; reflexivity|right; right; exact Hin].
Qed.

(** The keys of the cache after a group: those it had, and at most the
    key of the group. *)
Lemma process_group_keys
    (timeframe_to_next_date : string -> Datetime -> Exception + Datetime)
    (config : Config) (groups : list (Datetime * list CandleTrade))
    (group : Datetime * list CandleTrade) (s : Store) :
  forall key,
    In key (map fst (cached_grouped_trades
                       (fst (process_group timeframe_to_next_date config groups group s)))) ->
    fst key = fst group \/ In key (map fst (cached_grouped_trades s)).
Proof.
  destruct s as [df cache lg]. destruct group as [cs g].
  cbn [cached_grouped_trades fst].
  run_cases; intros key Hkey; try (right; exact Hkey).
  all: try (unfold OrderedDict.popitem_first in Hkey; apply In_map_tl in Hkey).
  all: apply set_keys in Hkey; destruct Hkey as [->|Hkey];
    [left; reflexivity|right; exact Hkey].
Qed.

(** A group that has trades, under a key the cache does not know, is
    computed without an exception when the next date resolves. *)
Lemma process_group_fresh
    (timeframe_to_next_date : string -> Datetime -> Exception + Datetime)
    (config : Config) (groups : list (Datetime * list CandleTrade))
    (k : Datetime) (g : list CandleTrade) (s : Store) :
  (exists cn, timeframe_to_next_date (timeframe config) k = inr cn) ->
  g <> [] ->
  (forall key, In key (map fst (cached_grouped_trades s)) -> fst key <> k) ->
  snd (process_group timeframe_to_next_date config groups (k, g) s) = inr tt.
Proof.
  intros [cn Hcn] Hg Hfresh. destruct s as [df cache lg].
  cbn [cached_grouped_trades] in Hfresh.
  assert (Hnone : forall cn', OrderedDict.get (k, cn') cache = None).
  { intros cn'. apply get_absent. intros k' Hk'. cbn [fst]. apply Hfresh. exact Hk'. }
  destruct (running_deltas_nonempty g Hg) as [q [qs Hq]].
  run_cases; try reflexivity; try congruence;
    try (match goal with
         | H : OrderedDict.get _ _ = Some _ |- _ => rewrite Hnone in H; discriminate
         end);
    match goal with
    | H : array_min _ = inl _ |- _ => rewrite Hq in H; discriminate
    | H : array_max _ = inl _ |- _ => rewrite Hq in H; discriminate
    end.
Qed.

Lemma for_each_fresh
    (timeframe_to_next_date : string -> Datetime -> Exception + Datetime)
    (config : Config) (all gs : list (Datetime * list CandleTrade)) :
  (forall d, exists d', timeframe_to_next_date (timeframe config) d = inr d') ->
  StronglySorted Z.lt (map fst gs) ->
  (forall k g, In (k, g) gs -> g <> []) ->
  forall s,
    (forall key k, In key (map fst (cached_grouped_trades s)) ->
                   In k (map fst gs) -> fst key < k) ->
    snd (for_each (process_group timeframe_to_next_date config all) gs s) = inr tt.
Proof.
  intros Hnext. induction gs as [|[k g] t IH]; intros Hs Hne s Hold; [reflexivity|].
  cbn [map fst] in Hs. apply StronglySorted_inv in Hs. destruct Hs as [Hst Hall].
  rewrite Forall_forall in Hall.
  rewrite for_each_step.
  pose proof (process_group_fresh timeframe_to_next_date config all k g s
                (Hnext k) (Hne k g (or_introl eq_refl))) as Hok.
  pose proof (process_group_keys timeframe_to_next_date config all (k, g) s) as Hkeys.
  destruct (process_group timeframe_to_next_date config all (k, g) s) as [s' [e|u]];
    cbn [fst snd] in *.
  - assert (H : @inl Exception unit e = inr tt); [|discriminate].
    apply Hok. intros key Hkey Heq.
    specialize (Hold key k Hkey (or_introl eq_refl)). lia.
  - apply IH; [exact Hst| |].
    + intros k' g' Hin. apply (Hne k' g'). right. exact Hin.
    + intros key k' Hkey Hk'.
      destruct (Hkeys key Hkey) as [Heq|Hin].
      * rewrite Heq. apply Hall. exact Hk'.
      * apply Hold; [exact Hin|right; exact Hk'].
Qed.

(** X17.  A call does not raise when the collaborators resolve every
    timeframe and date, [max_candles] is positive, the table has a row and
    the cache comes in empty: it returns the table and the cache. *)
Theorem populate_succeeds_on_fresh_cache
    (timeframe_to_resample_freq : string -> Exception + string)
    (dt_floor : string -> Datetime -> Exception + Datetime)
    (timeframe_to_next_date : string -> Datetime -> Exception + Datetime)
    (config : Config) (trades_df : option (list Trade)) (s : Store) :
  (exists freq, timeframe_to_resample_freq (timeframe config) = inr freq) ->
  (forall freq d, exists d', dt_floor freq d = inr d') ->
  (forall d, exists d', timeframe_to_next_date (timeframe config) d = inr d') ->
  0 < max_candles (config_orderflow config) ->
  dataframe s <> [] ->
  cached_grouped_trades s = [] ->
  exists s',
    populate_dataframe_with_trades timeframe_to_resample_freq dt_floor
      timeframe_to_next_date config trades_df s =
    (s', inr (dataframe s', cached_grouped_trades s')).
Proof.
  intros Hfreq Hfloor Hnext Hmax Hdf Hcache.
  destruct trades_df as [[|t ts]|]; try (eexists; reflexivity).
  rewrite populate_by_processing, processing_by_groups.
  destruct (trade_groups_total timeframe_to_resample_freq dt_floor
              timeframe_to_next_date config (t :: ts) (dataframe (initialised s))
              Hfreq Hfloor Hnext Hmax) as [groups Hgroups].
  { cbn [initialised dataframe]. destruct (dataframe s); [contradiction|discriminate]. }
  rewrite Hgroups.
  destruct (trade_groups_facts _ _ _ _ _ _ _ Hgroups)
    as [freq [start [_ [_ [Hsorted [Hin _]]]]]].
  pose proof (for_each_fresh timeframe_to_next_date config groups groups Hnext Hsorted
                (fun k g H => proj1 (Hin k g H)) (initialised s)) as Hloop.
  destruct (for_each _ groups (initialised s)) as [s' [e|u]]; cbn [snd] in Hloop.
  - assert (H : @inl Exception unit e = inr tt); [|discriminate].
    apply Hloop. cbn [initialised cached_grouped_trades]. rewrite Hcache.
    intros key k [].
  - eexists. reflexivity.
Qed.

Lemma populate_succeeds_on_fresh_cache_witness :
  exists s',
    populate_dataframe_with_trades minute_freq minute_floor minute_next
      (plain_config (Some LIVE) 10) (Some three_trades)
      (mkStore [plain_candle ten_o_clock] [] []) =
    (s', inr (dataframe s', cached_grouped_trades s')).
Proof.
  apply (populate_succeeds_on_fresh_cache minute_freq minute_floor minute_next
           (plain_config (Some LIVE) 10) (Some three_trades)
           (mkStore [plain_candle ten_o_clock] [] [])).
  - exists "1min"%string. reflexivity.
  - intros freq d. eexists. reflexivity.
  - intros d. eexists. reflexivity.
  - reflexivity.
  - discriminate.
  - reflexivity.
Defined.

Lemma loc_length {A B : Type} (mask : list bool) (xs : list A) (ys : list B) :
  length xs = length ys -> length (loc mask xs) = length (loc mask ys).
Proof.
  unfold loc. rewrite !length_map.
  revert xs ys. induction mask as [|b m IH]; intros [|x xs] [|y ys] H;
    simpl in *; try reflexivity; try discriminate.
  destruct b; simpl; [f_equal|]; apply IH; lia.
Qed.

Lemma loc_cons {A : Type} (b : bool) (m : list bool) (x : A) (xs : list A) :
  loc (b :: m) (x :: xs) = if b then x :: loc m xs else loc m xs.
Proof. unfold loc. simpl. destruct b; reflexivity. Qed.

Lemma loc_none_fixpoint (row : Candle) (mask : list bool) (df : list Candle) :
  length mask = length df ->
  loc mask df = [] ->
  Series.map2 (fun (b : bool) c => if b then row else c) mask df = df.
Proof.
  revert df. induction mask as [|b m IH]; intros [|c t] Hlen H;
    simpl in *; try reflexivity; try discriminate.
  rewrite loc_cons in H. destruct b; [discriminate|].
  f_equal. apply IH; [lia|exact H].
Qed.

Lemma loc_single_fixpoint (row : Candle) (mask : list bool) (df : list Candle) :
  length mask = length df ->
  loc mask df = [row] ->
  Series.map2 (fun (b : bool) c => if b then row else c) mask df = df.
Proof.
  revert df. induction mask as [|b m IH]; intros [|c t] Hlen H;
    simpl in *; try reflexivity; try discriminate.
  rewrite loc_cons in H. destruct b.
  - injection H as <- H. f_equal. apply loc_none_fixpoint; [lia|exact H].
  - f_equal. apply IH; [lia|exact H].
Qed.

Lemma loc_existsb {A : Type} (mask : list bool) (xs : list A) :
  loc mask xs <> [] -> existsb (fun b => b) mask = true.
Proof.
  revert xs. induction mask as [|b m IH]; intros [|x xs] H; simpl in *;
    try (exfalso; apply H; reflexivity).
  rewrite loc_cons in H. destruct b; [reflexivity|]. simpl. apply (IH xs). exact H.
Qed.

Lemma get_appended {V : Type} (k : CacheKey) (v : V) (d : list (CacheKey * V)) :
  OrderedDict.get k d = None ->
  OrderedDict.get k (d ++ [(k, v)]) = Some v /\
  forall e, OrderedDict.get k (tl (d ++ [(k, v)])) = Some e -> e = v.
Proof.
  assert (Hrefl : key_eqb k k = true)
    by (unfold key_eqb; rewrite !Z.eqb_refl; reflexivity).
  assert (Hgen : forall d', OrderedDict.get k d' = None ->
                            OrderedDict.get k (d' ++ [(k, v)]) = Some v).
  { induction d' as [|[k' v'] rest IH]; simpl; intros H.
    - rewrite Hrefl. reflexivity.
    - destruct (key_eqb k k'); [discriminate|]. apply IH. exact H. }
  intros Hnone. split; [apply Hgen; exact Hnone|].
  destruct d as [|[k' v'] rest]; simpl.
  - intros e H. discriminate.
  - simpl in Hnone. destruct (key_eqb k k'); [discriminate|].
    intros e H. rewrite (Hgen rest Hnone) in H. congruence.
Qed.

(** A cache hit, in closed form. *)
Lemma process_group_hit
    (timeframe_to_next_date : string -> Datetime -> Exception + Datetime)
    (config : Config) (groups : list (Datetime * list CandleTrade))
    (k : Datetime) (g : list CandleTrade) (s : Store)
    (candle_next : Datetime) (row : Candle) (rest : list Candle) :
  timeframe_to_next_date (timeframe config) k = inr candle_next ->
  OrderedDict.get (k, candle_next) (cached_grouped_trades s) = Some (row :: rest) ->
  length (loc (map (fun c => k =? date c) (dataframe s)) (dataframe s)) = 1%nat ->
  let after := process_group timeframe_to_next_date config groups (k, g) s in
  snd after = inr tt /\
  dataframe (fst after) =
    Series.map2 (fun (b : bool) c => if b then row else c)
      (map (fun c => k =? date c) (dataframe s)) (dataframe s) /\
  cached_grouped_trades (fst after) = cached_grouped_trades s.
Proof.
  intros Hnext Hget Hone. destruct s as [df cache lg].
  cbn [dataframe cached_grouped_trades] in *.
  assert (Hex : existsb (fun b => b) (map (fun c => k =? date c) df) = true).
  { apply (loc_existsb _ df). intros H. rewrite H in Hone. discriminate. }
  apply Nat.eqb_eq in Hone.
  cbv zeta. run_cases; repeat split; try reflexivity; try congruence.
  all: match goal with
       | Hl : OrderedDict.get _ _ = Some ?l |- _ =>
           assert (Hrow : l = row :: rest) by congruence; subst l
       end;
       cbn [iat0] in *; try congruence;
       match goal with
       | H : @inr Exception Candle _ = inr _ |- _ => injection H as <-; reflexivity
       end.
Qed.

(** X18.  A cache hit copies and computes nothing: when one row has the
    candle start of the group and the cache holds an entry with rows under
    (start, next date), the row becomes the first row of the entry, every
    other row and the cache stay as they are and nothing is raised,
    whatever the trades of the group are. *)
Theorem cache_hit_copies_the_entry
    (timeframe_to_next_date : string -> Datetime -> Exception + Datetime)
    (config : Config) (groups : list (Datetime * list CandleTrade))
    (k : Datetime) (g : list CandleTrade) (s : Store)
    (candle_next : Datetime) (row : Candle) (rest : list Candle) :
  timeframe_to_next_date (timeframe config) k = inr candle_next ->
  OrderedDict.get (k, candle_next) (cached_grouped_trades s) = Some (row :: rest) ->
  length (loc (map (fun c => k =? date c) (dataframe s)) (dataframe s)) = 1%nat ->
  let after := process_group timeframe_to_next_date config groups (k, g) s in
  snd after = inr tt /\
  dataframe (fst after) =
    Series.map2 (fun (b : bool) c => if b then row else c)
      (map (fun c => k =? date c) (dataframe s)) (dataframe s) /\
  cached_grouped_trades (fst after) = cached_grouped_trades s.
Proof. apply process_group_hit. Qed.

Lemma cache_hit_copies_the_entry_witness :
  dataframe
    (fst (process_group minute_next (plain_config (Some LIVE) 1)
            [(ten_o_clock - 3600000, [])] (ten_o_clock - 3600000, [])
            (mkStore [ mkCandle (ten_o_clock - 3600000) (1, 2, 3, 4, 5)%Q unset;
                       plain_candle ten_o_clock ] old_cache []))) =
  [ plain_candle (ten_o_clock - 3600000); plain_candle ten_o_clock ].
Proof.
  exact (proj1 (proj2
           (cache_hit_copies_the_entry minute_next (plain_config (Some LIVE) 1)
              [(ten_o_clock - 3600000, [])] (ten_o_clock - 3600000) []
              (mkStore [ mkCandle (ten_o_clock - 3600000) (1, 2, 3, 4, 5)%Q unset;
                         plain_candle ten_o_clock ] old_cache [])
              (ten_o_clock - 3540000) (plain_candle (ten_o_clock - 3600000)) []
              eq_refl eq_refl eq_refl))).
Defined.

Lemma update_at_keeps_dates (index : nat) (f : Candle -> Candle) (df : list Candle) :
  (forall c, date (f c) = date c) ->
  map date (update_at index f df) = map date df.
Proof.
  intros Hf. revert index. induction df as [|c t IH]; intros [|index]; simpl;
    try reflexivity.
  - rewrite Hf. reflexivity.
  - rewrite IH. reflexivity.
Qed.

(** A cache miss on a group that has trades, in closed form. *)
Lemma process_group_miss
    (timeframe_to_next_date : string -> Datetime -> Exception + Datetime)
    (config : Config) (groups : list (Datetime * list CandleTrade))
    (k : Datetime) (g : list CandleTrade) (s : Store) (candle_next : Datetime) :
  timeframe_to_next_date (timeframe config) k = inr candle_next ->
  OrderedDict.get (k, candle_next) (cached_grouped_trades s) = None ->
  existsb (fun b => b) (map (fun c => k =? date c) (dataframe s)) = true ->
  g <> [] ->
  let after := process_group timeframe_to_next_date config groups (k, g) s in
  let inserted :=
    cached_grouped_trades s ++
    [((k, candle_next),
      loc (map (fun c => k =? date c) (dataframe s)) (dataframe (fst after)))] in
  snd after = inr tt /\
  map date (dataframe (fst after)) = map date (dataframe s) /\
  (cached_grouped_trades (fst after) = inserted \/
   cached_grouped_trades (fst after) = tl inserted).
Proof.
  intros Hnext Hget Hex Hg. destruct s as [df cache lg].
  cbn [dataframe cached_grouped_trades] in *.
  destruct (running_deltas_nonempty g Hg) as [q [qs Hq]].
  cbv zeta. run_cases; try congruence;
    try (match goal with
         | H : array_min _ = inl _ |- _ => rewrite Hq in H; discriminate
         | H : array_max _ = inl _ |- _ => rewrite Hq in H; discriminate
         end).
  all: assert (d = candle_next) by congruence; subst d.
  all: rewrite (set_absent _ _ _ Hget).
  all: split; [reflexivity|]; split;
    [rewrite !update_at_keeps_dates by (intros; reflexivity); reflexivity|].
  all: first [left; reflexivity | right; reflexivity].
Qed.

(** X19.  Recomputation is served from the cache: once a group with trades
    has been computed for the one row of its candle start and its entry is
    in the cache, processing a group of that candle start again, with any
    trades, raises nothing and changes neither the table nor the cache. *)
Theorem reprocessing_is_idempotent
    (timeframe_to_next_date : string -> Datetime -> Exception + Datetime)
    (config : Config) (groups groups' : list (Datetime * list CandleTrade))
    (k : Datetime) (g g' : list CandleTrade) (s : Store) (candle_next : Datetime) :
  timeframe_to_next_date (timeframe config) k = inr candle_next ->
  OrderedDict.get (k, candle_next) (cached_grouped_trades s) = None ->
  length (loc (map (fun c => k =? date c) (dataframe s)) (dataframe s)) = 1%nat ->
  g <> [] ->
  let s1 := fst (process_group timeframe_to_next_date config groups (k, g) s) in
  OrderedDict.get (k, candle_next) (cached_grouped_trades s1) <> None ->
  let again := process_group timeframe_to_next_date config groups' (k, g') s1 in
  snd again = inr tt /\
  dataframe (fst again) = dataframe s1 /\
  cached_grouped_trades (fst again) = cached_grouped_trades s1.
Proof.
  intros Hnext Hget Hone Hg s1 Hkept again.
  assert (Hex : existsb (fun b => b) (map (fun c => k =? date c) (dataframe s)) = true).
  { apply (loc_existsb _ (dataframe s)). intros H. rewrite H in Hone. discriminate. }
  destruct (process_group_miss timeframe_to_next_date config groups k g s candle_next
              Hnext Hget Hex Hg) as [_ [Hdates Hcache]].
  fold s1 in Hdates, Hcache.
  set (mask := map (fun c => k =? date c) (dataframe s)) in *.
  assert (Hmask : map (fun c => k =? date c) (dataframe s1) = mask).
  { subst mask. rewrite <- (map_map date (Z.eqb k)), Hdates, map_map. reflexivity. }
  assert (Hlen : length (dataframe s1) = length (dataframe s)).
  { rewrite <- (length_map date), Hdates, length_map. reflexivity. }
  assert (Hone1 : length (loc mask (dataframe s1)) = 1%nat).
  { rewrite (loc_length mask _ (dataframe s) Hlen). exact Hone. }
  destruct (loc mask (dataframe s1)) as [|row [|row' more]] eqn:Hloc;
    try discriminate.
  assert (Hentry : OrderedDict.get (k, candle_next) (cached_grouped_trades s1) =
                   Some [row]).
  { destruct (get_appended (k, candle_next) [row] _ Hget) as [Hfull Htl].
    destruct Hcache as [Hc|Hc]; rewrite Hc in *.
    - exact Hfull.
    - assert (Hsome : exists e, OrderedDict.get (k, candle_next)
                           (tl (cached_grouped_trades s ++ [((k, candle_next), [row])])) =
                         Some e).
      { clear Htl. destruct (OrderedDict.get (k, candle_next) (tl _)) as [e|];
          [exists e; reflexivity|contradiction]. }
      destruct Hsome as [e Ee]. rewrite Ee. f_equal. apply Htl. exact Ee. }
  destruct (process_group_hit timeframe_to_next_date config groups' k g' s1
              candle_next row [] Hnext Hentry) as [Hok [Hdf Hc]].
  { rewrite Hmask, Hloc. reflexivity. }
  fold again in Hok, Hdf, Hc.
  split; [exact Hok|]. split; [|exact Hc].
  rewrite Hdf, Hmask. apply loc_single_fixpoint; [|exact Hloc].
  subst mask. rewrite length_map. symmetry. exact Hlen.
Qed.

Lemma reprocessing_is_idempotent_witness :
  let s1 :=
    fst (process_group minute_next (plain_config (Some LIVE) 10) []
           (ten_o_clock, [mkCandleTrade (mkTrade ten_o_clock 100 2 "buy")
                            ten_o_clock (ten_o_clock + 60000)])
           (mkStore [plain_candle ten_o_clock] [] [])) in
  snd (process_group minute_next (plain_config (Some LIVE) 10) [] (ten_o_clock, []) s1) =
    inr tt /\
  dataframe
    (fst (process_group minute_next (plain_config (Some LIVE) 10) [] (ten_o_clock, []) s1)) =
    dataframe s1 /\
  cached_grouped_trades
    (fst (process_group minute_next (plain_config (Some LIVE) 10) [] (ten_o_clock, []) s1)) =
    cached_grouped_trades s1.
Proof.
  apply (reprocessing_is_idempotent minute_next (plain_config (Some LIVE) 10) [] []
           ten_o_clock
           [mkCandleTrade (mkTrade ten_o_clock 100 2 "buy")
              ten_o_clock (ten_o_clock + 60000)]
           [] (mkStore [plain_candle ten_o_clock] [] []) (ten_o_clock + 60000)).
  - reflexivity.
  - reflexivity.
  - reflexivity.
  - discriminate.
  - vm_compute. discriminate.
Defined.

Lemma abort_before_loop
    (timeframe_to_resample_freq : string -> Exception + string)
    (dt_floor : string -> Datetime -> Exception + Datetime)
    (timeframe_to_next_date : string -> Datetime -> Exception + Datetime)
    (config : Config) (t : Trade) (ts : list Trade) (s : Store) (e : Exception) :
  trade_groups timeframe_to_resample_freq dt_floor timeframe_to_next_date
    config (t :: ts) (dataframe (initialised s)) = inl e ->
  populate_dataframe_with_trades timeframe_to_resample_freq dt_floor
    timeframe_to_next_date config (Some (t :: ts)) s =
  (logged (exception_logged e) (initialised s), inl (DependencyException e)).
Proof.
  intros Hfail. rewrite populate_by_processing, processing_by_groups, Hfail.
  reflexivity.
Qed.

(** X20.  A failure before the loop (a collaborator that raises on the
    timeframe or on a trade, or an empty window) aborts the call with the
    table only initialised and the cache untouched: no row is written. *)
Theorem failure_before_the_loop
    (timeframe_to_resample_freq : string -> Exception + string)
    (dt_floor : string -> Datetime -> Exception + Datetime)
    (timeframe_to_next_date : string -> Datetime -> Exception + Datetime)
    (config : Config) (t : Trade) (ts : list Trade) (s : Store) (e : Exception) :
  trade_groups timeframe_to_resample_freq dt_floor timeframe_to_next_date
    config (t :: ts) (dataframe (initialised s)) = inl e ->
  populate_dataframe_with_trades timeframe_to_resample_freq dt_floor
    timeframe_to_next_date config (Some (t :: ts)) s =
  (logged (exception_logged e) (initialised s), inl (DependencyException e)).
Proof. apply abort_before_loop. Qed.

Lemma failure_before_the_loop_witness :
  populate_dataframe_with_trades unknown_timeframe minute_floor minute_next
    (plain_config None 10) (Some three_trades)
    (mkStore [mkCandle ten_o_clock (1, 2, 3, 4, 5)%Q
                (mkAdded None None None None None None None (Some 0%Q) None None None)]
       old_cache []) =
  (mkStore [mkCandle ten_o_clock (1, 2, 3, 4, 5)%Q unset] old_cache
     [exception_logged (ExternalError "unknown timeframe")],
   inl (DependencyException (ExternalError "unknown timeframe"))).
Proof.
  apply (failure_before_the_loop unknown_timeframe minute_floor minute_next
           (plain_config None 10)
           (mkTrade (ten_o_clock + 1000) 100 2 "buy")
           [ mkTrade (ten_o_clock + 2000) 100 1 "sell";
             mkTrade (ten_o_clock + 3000) (201 # 2) 5 "buy" ]
           (mkStore [mkCandle ten_o_clock (1, 2, 3, 4, 5)%Q
                       (mkAdded None None None None None None None (Some 0%Q)
                          None None None)]
              old_cache [])
           (ExternalError "unknown timeframe")).
  reflexivity.
Defined.

(** X21.  With trades whose candle bounds resolve, a table without rows or
    a [max_candles] of zero leaves no row to take the window start from:
    the call raises [DependencyException] caused by [IndexError]. *)
Theorem empty_window_raises
    (timeframe_to_resample_freq : string -> Exception + string)
    (dt_floor : string -> Datetime -> Exception + Datetime)
    (timeframe_to_next_date : string -> Datetime -> Exception + Datetime)
    (config : Config) (t : Trade) (ts : list Trade) (s : Store)
    (trades_c : list CandleTrade) :
  _calculate_ohlcv_candle_start_and_end timeframe_to_resample_freq dt_floor
    timeframe_to_next_date (t :: ts) (timeframe config) = inr trades_c ->
  dataframe s = [] \/ max_candles (config_orderflow config) = 0 ->
  populate_dataframe_with_trades timeframe_to_resample_freq dt_floor
    timeframe_to_next_date config (Some (t :: ts)) s =
  (logged (exception_logged IndexError) (initialised s),
   inl (DependencyException IndexError)).
Proof.
  intros Hc Hempty. apply abort_before_loop.
  unfold trade_groups. rewrite Hc.
  assert (Hw : tail (max_candles (config_orderflow config)) (dataframe (initialised s)) = []).
  { destruct Hempty as [Hdf|Hmax].
    - cbn [initialised dataframe]. rewrite Hdf. unfold tail. cbn [map].
      destruct (_ =? 0); [reflexivity|]. destruct (0 <? _); apply skipn_nil.
    - unfold tail. rewrite Hmax. reflexivity. }
  rewrite Hw. reflexivity.
Qed.

Lemma empty_window_raises_witness :
  populate_dataframe_with_trades minute_freq minute_floor minute_next
    (mkConfig "1m" (mkOrderflowConfig 0 (1 # 2) 3 0 2 10) None)
    (Some [mkTrade (ten_o_clock + 1000) 100 2 "buy"])
    (mkStore [plain_candle ten_o_clock] [] []) =
  (mkStore [plain_candle ten_o_clock] [] [exception_logged IndexError],
   inl (DependencyException IndexError)).
Proof.
  apply (empty_window_raises minute_freq minute_floor minute_next
           (mkConfig "1m" (mkOrderflowConfig 0 (1 # 2) 3 0 2 10) None)
           (mkTrade (ten_o_clock + 1000) 100 2 "buy") []
           (mkStore [plain_candle ten_o_clock] [] [])
           [mkCandleTrade (mkTrade (ten_o_clock + 1000) 100 2 "buy")
              ten_o_clock (ten_o_clock + 60000)]).
  - reflexivity.
  - right. reflexivity.
Defined.
